(** * A tiny MNA solver for DC resistive circuits, and the decoder of its result format

    Shallow embedding of [bin/tiny_qucsator.py] ([solve], [main]) and of
    [backend/main.py] ([parse_qucs_dat]).

    - Text is [string]; the netlist and the result file are ASCII text
      (characters above 127 are treated as neither blank nor word characters).
    - Python's [float] is IEEE binary64: Rocq's primitive [float], with the
      conversions from and to decimal text written over exact integers.
    - Python's [int] is [Z]; [int] of a text takes at most 4300 digits, the
      default limit of CPython 3.11 and later.
    - A raised exception is a value of [exn]; code that can raise lives in the
      [result] monad. *)

From Stdlib Require Import ZArith Floats Ascii String DecimalString.
From stdpp Require Import gmap strings list sorting.

Local Open Scope Z_scope.

(** ** Exceptions *)

Inductive exn : Set :=
| IndexError
| KeyError
| ValueError
| ZeroDivisionError
| OverflowError.

Inductive result (A : Type) : Type :=
| Ok (a : A)
| Raise (e : exn).
Arguments Ok {A} a.
Arguments Raise {A} e.

#[global] Instance result_ret : MRet result := fun A a => Ok a.
#[global] Instance result_bind : MBind result := fun A B k m =>
  match m with
  | Ok a => k a
  | Raise e => Raise e
  end.

Definition of_option {A} (e : exn) (o : option A) : result A :=
  match o with
  | Some a => Ok a
  | None => Raise e
  end.

Fixpoint foldM {A S} (f : S -> A -> result S) (l : list A) (s : S) : result S :=
  match l with
  | [] => Ok s
  | a :: l' => s' ← f s a; foldM f l' s'
  end.

(** ** Python's [str] methods used by the program *)

Module Py.

Definition quote : ascii := "034"%char.
Definition newline : ascii := "010"%char.

(** [str.isspace] on ASCII: tab, LF, VT, FF, CR, FS, GS, RS, US and space. *)
Definition is_space (c : ascii) : bool :=
  let n := nat_of_ascii c in
  ((9 <=? n)%nat && (n <=? 13)%nat) || ((28 <=? n)%nat && (n <=? 32)%nat).

(** The line boundaries of [str.splitlines] on ASCII:
    LF, CR (and CR LF as one), VT, FF, FS, GS, RS. *)
Definition is_linebreak (c : ascii) : bool :=
  let n := nat_of_ascii c in
  ((10 <=? n)%nat && (n <=? 13)%nat) || ((28 <=? n)%nat && (n <=? 30)%nat).

Definition is_digit (c : ascii) : bool :=
  let n := nat_of_ascii c in (48 <=? n)%nat && (n <=? 57)%nat.

(** [\w] of the [re] module on ASCII: letters, digits and the underscore. *)
Definition is_word (c : ascii) : bool :=
  let n := nat_of_ascii c in
  is_digit c || ((65 <=? n)%nat && (n <=? 90)%nat)
             || ((97 <=? n)%nat && (n <=? 122)%nat) || (n =? 95)%nat.

Definition is_empty (s : string) : bool :=
  match s with EmptyString => true | _ => false end.

(** [s.splitlines()]: no trailing empty line after a final line break. *)
Fixpoint splitlines (s : string) : list string :=
  match s with
  | EmptyString => []
  | String c s' =>
      if is_linebreak c then
        EmptyString ::
          match s' with
          | String c' s'' =>
              if (Ascii.eqb c "013" && Ascii.eqb c' "010")%char
              then splitlines s'' else splitlines s'
          | EmptyString => []
          end
      else
        match splitlines s' with
        | [] => [String c EmptyString]
        | l :: ls => String c l :: ls
        end
  end.

Fixpoint lstrip (s : string) : string :=
  match s with
  | String c s' => if is_space c then lstrip s' else s
  | EmptyString => EmptyString
  end.

Fixpoint rstrip (s : string) : string :=
  match s with
  | EmptyString => EmptyString
  | String c s' =>
      match rstrip s' with
      | EmptyString => if is_space c then EmptyString else String c EmptyString
      | r => String c r
      end
  end.

(** [s.strip()] *)
Definition strip (s : string) : string := rstrip (lstrip s).

(** [s.split()]: the maximal runs of non-blank characters. *)
Fixpoint split (s : string) : list string :=
  match s with
  | EmptyString => []
  | String c s' =>
      if is_space c then split s'
      else
        match s' with
        | String c' _ =>
            if is_space c' then String c EmptyString :: split s'
            else
              match split s' with
              | t :: ts => String c t :: ts
              | [] => [String c EmptyString]
              end
        | EmptyString => [String c EmptyString]
        end
  end.

(** [c in s] for a one-character [c] *)
Fixpoint contains (c : ascii) (s : string) : bool :=
  match s with
  | EmptyString => false
  | String c' s' => Ascii.eqb c c' || contains c s'
  end.

(** [s.startswith(p)] *)
Definition startswith (p s : string) : bool := String.prefix p s.

(** [s.split(c)] for a one-character separator: never empty. *)
Fixpoint split_on (c : ascii) (s : string) : list string :=
  match s with
  | EmptyString => [EmptyString]
  | String c' s' =>
      if Ascii.eqb c c' then EmptyString :: split_on c s'
      else
        match split_on c s' with
        | t :: ts => String c' t :: ts
        | [] => [String c' EmptyString]
        end
  end.

(** The longest prefix whose characters satisfy [p], and what follows it. *)
Fixpoint span (p : ascii -> bool) (s : string) : string * string :=
  match s with
  | String c s' =>
      if p c then let '(a, b) := span p s' in (String c a, b)
      else (EmptyString, s)
  | EmptyString => (EmptyString, EmptyString)
  end.

Fixpoint skipn (n : nat) (s : string) : string :=
  match n, s with
  | O, _ => s
  | S n', String _ s' => skipn n' s'
  | S _, EmptyString => EmptyString
  end.

Fixpoint concat (l : list string) : string :=
  match l with
  | [] => EmptyString
  | s :: l' => s +:+ concat l'
  end.

End Py.

(** ** Python's numbers: [float], [int], and their decimal text *)

Module Num.

Local Open Scope float_scope.

(** IEEE [==] with zero: true for [0.0] and [-0.0]. *)
Definition is_zero (x : float) : bool := PrimFloat.eqb x 0.

(** [a / b] on floats: Python raises on a zero divisor. *)
Definition div (a b : float) : result float :=
  if is_zero b then Raise ZeroDivisionError else Ok (a / b).

(** The nearest binary64 value (ties to even) of the ratio [n / d] of two
    integers, [0 <= n], [0 < d], with sign [neg]. *)
Definition round_ratio (neg : bool) (n d : Z) : float :=
  let '(q, e, l) := SFdiv_core_binary prec emax n 0 d 0 in
  SF2Prim (binary_round_aux prec emax neg q e l).

(** The integers of magnitude below [2^1024 - 2^970] are those whose nearest
    binary64 value is finite. *)
Definition float_limit : Z := 2 ^ 1024 - 2 ^ 970.

(** [float(z)] for an [int], also where arithmetic mixes an [int] with a
    [float]: the nearest binary64 value, [OverflowError] beyond the range of
    binary64. *)
Definition to_float (z : Z) : float :=
  SF2Prim (binary_normalize prec emax z 0 false).

Definition of_int (z : Z) : result float :=
  if (Z.abs z <? float_limit)%Z then Ok (to_float z) else Raise OverflowError.

(** [a / z] for a float [a] and an [int] [z]: the converted divisor is zero
    only for [z = 0]. *)
Definition div_int (a : float) (z : Z) : result float :=
  if (z =? 0)%Z then Raise ZeroDivisionError
  else d ← of_int z; Ok (a / d).

(** The binary64 value of the decimal [(-1)^neg * m * 10^e10], [0 <= m].
    The two shortcuts only keep the integers small: [10^400 <= m * 10^e10]
    in the first, [m * 10^e10 < 2^(log2 m + 1) * 10^e10 < 10^-400] in the
    second. *)
Definition of_decimal (neg : bool) (m e10 : Z) : float :=
  if (m =? 0)%Z then (if neg then PrimFloat.neg_zero else PrimFloat.zero)
  else if (400 <? e10)%Z
  then (if neg then PrimFloat.neg_infinity else PrimFloat.infinity)
  else if (e10 + Z.log2 m + 1 <? -400)%Z
  then (if neg then PrimFloat.neg_zero else PrimFloat.zero)
  else if (0 <=? e10)%Z then round_ratio neg (m * 10 ^ e10) 1
  else round_ratio neg m (10 ^ (- e10)).

Definition digit_val (c : ascii) : Z := Z.of_nat (nat_of_ascii c) - 48.

(** The value of a string of decimal digits. *)
Fixpoint digits_val (acc : Z) (s : string) : Z :=
  match s with
  | EmptyString => acc
  | String c s' => digits_val (10 * acc + digit_val c) s'
  end.

(** Underscores of a numeric literal: each must stand between two digits;
    they are then dropped. [prev] tells whether a digit precedes. *)
Fixpoint drop_underscores (prev : bool) (s : string) : option string :=
  match s with
  | EmptyString => Some EmptyString
  | String c s' =>
      if Ascii.eqb c "_" then
        match s' with
        | String c' _ =>
            if prev && Py.is_digit c' then drop_underscores false s' else None
        | EmptyString => None
        end
      else String c <$> drop_underscores (Py.is_digit c) s'
  end.

Definition eat_sign (s : string) : bool * string :=
  match s with
  | String "-" s' => (true, s')
  | String "+" s' => (false, s')
  | _ => (false, s)
  end.

Definition lower (c : ascii) : ascii :=
  let n := nat_of_ascii c in
  if (65 <=? n)%nat && (n <=? 90)%nat then ascii_of_nat (n + 32) else c.

Fixpoint lowercase (s : string) : string :=
  match s with
  | EmptyString => EmptyString
  | String c s' => String (lower c) (lowercase s')
  end.

(** [Py_ISSPACE], the blanks that [float] and [int] skip at both ends of
    their text: tab, LF, VT, FF, CR and space. FS, GS, RS and US, which
    [str.strip] removes, are not among them. *)
Definition is_blank (c : ascii) : bool :=
  let n := nat_of_ascii c in
  ((9 <=? n)%nat && (n <=? 13)%nat) || (n =? 32)%nat.

Fixpoint skip_left (s : string) : string :=
  match s with
  | String c s' => if is_blank c then skip_left s' else s
  | EmptyString => EmptyString
  end.

Fixpoint skip_right (s : string) : string :=
  match s with
  | EmptyString => EmptyString
  | String c s' =>
      match skip_right s' with
      | EmptyString => if is_blank c then EmptyString else String c EmptyString
      | r => String c r
      end
  end.

(** The text of a number without the blanks around it. *)
Definition trim (s : string) : string := skip_right (skip_left s).

(** The most digits [int] takes from a text, [sys.get_int_max_str_digits()]
    by default (CPython 3.11 and later); a longer text is a [ValueError]. *)
Definition max_str_digits : nat := 4300.

(** [float(s)] for a [str]; [None] is [ValueError]. *)
Definition float_of_str (s : string) : option float :=
  s1 ← drop_underscores false (trim s);
  let '(neg, s2) := eat_sign s1 in
  let w := lowercase s2 in
  if String.eqb w "inf" || String.eqb w "infinity"
  then Some (if neg then PrimFloat.neg_infinity else PrimFloat.infinity)
  else if String.eqb w "nan" then Some PrimFloat.nan
  else
    let '(ip, r1) := Py.span Py.is_digit s2 in
    let '(fp, r2) :=
      match r1 with
      | String "." r => Py.span Py.is_digit r
      | _ => (EmptyString, r1)
      end in
    if Py.is_empty ip && Py.is_empty fp then None
    else
      let m := digits_val 0 (ip +:+ fp) in
      let sh := Z.of_nat (String.length fp) in
      match r2 with
      | EmptyString => Some (of_decimal neg m (- sh))
      | String c r3 =>
          if Ascii.eqb (lower c) "e" then
            let '(eneg, r4) := eat_sign r3 in
            let '(ed, r5) := Py.span Py.is_digit r4 in
            if Py.is_empty ed || negb (Py.is_empty r5) then None
            else
              let e := digits_val 0 ed in
              Some (of_decimal neg m ((if eneg then - e else e) - sh))
          else None
      end.

(** [int(s)] for a [str], base 10; [None] is [ValueError]. *)
Definition int_of_str (s : string) : option Z :=
  s1 ← drop_underscores false (trim s);
  let '(neg, s2) := eat_sign s1 in
  let '(ds, r) := Py.span Py.is_digit s2 in
  if Py.is_empty ds || negb (Py.is_empty r)
     || (max_str_digits <? String.length ds)%nat then None
  else Some (if neg then - digits_val 0 ds else digits_val 0 ds)%Z.

Definition digit_char (d : Z) : ascii :=
  ascii_of_nat (48 + Z.to_nat (d mod 10)).

(** The [S k] lowest decimal digits of [n], most significant first. *)
Fixpoint digits_fixed (k : nat) (n : Z) : string :=
  match k with
  | O => String (digit_char n) EmptyString
  | S k' => String (digit_char (n / 10 ^ Z.of_nat k)) (digits_fixed k' n)
  end.

(** [str(z)] for an [int]. *)
Definition str_of_int (z : Z) : string :=
  DecimalString.NilZero.string_of_int (Z.to_int z).

(** [n / d] rounded to the nearest integer, ties to even ([0 <= n], [0 < d]). *)
Definition div_half_even (n d : Z) : Z :=
  let q := (n / d)%Z in
  let r := (n mod d)%Z in
  match (2 * r ?= d)%Z with
  | Lt => q
  | Gt => (q + 1)%Z
  | Eq => if Z.even q then q else (q + 1)%Z
  end.

(** [n / d * 10^(6-k)] rounded to an integer. *)
Definition scaled7 (n d k : Z) : Z :=
  if (k <=? 6)%Z then div_half_even (n * 10 ^ (6 - k)) d
  else div_half_even n (d * 10 ^ (k - 6)).

(** The decimal exponent of [n / d], the [k] with [10^k <= n/d < 10^(k+1)]:
    searched upwards from [k], which is not above it. *)
Fixpoint exp10_from (fuel : nat) (n d k : Z) : Z :=
  match fuel with
  | O => k
  | S fuel' =>
      if (if (0 <=? k + 1)%Z then (d * 10 ^ (k + 1) <=? n)%Z
          else (d <=? n * 10 ^ (- (k + 1)))%Z)
      then exp10_from fuel' n d (k + 1)%Z
      else k
  end.

(** [(log2 n - log2 d - 1) * log10 2 - 2] is below the exponent by less
    than 8 for the ratios of binary64 values. *)
Definition exp10 (n d : Z) : Z :=
  exp10_from 8 n d ((Z.log2 n - Z.log2 d - 1) * 30103 / 100000 - 2)%Z.

(** The mantissa digits [d.dddddd] and exponent part [e+XX] of [n / d]. *)
Definition sci7 (n d : Z) : string :=
  let k := exp10 n d in
  let m := scaled7 n d k in
  let '(m, k) := if (10000000 <=? m)%Z then ((m / 10)%Z, (k + 1)%Z) else (m, k) in
  let a := Z.abs k in
  String (digit_char (m / 1000000)) (String "." (digits_fixed 5 m))
  +:+ String "e" (String (if (k <? 0)%Z then "-" else "+")%char
        (if (a <? 100)%Z then digits_fixed 1 a else digits_fixed 2 a)).

(** [format(x, 'e')]: seven significant digits, exponent of at least two
    digits. *)
Definition format_e (x : float) : string :=
  match Prim2SF x with
  | S754_nan => "nan"
  | S754_infinity s => if s then "-inf" else "inf"
  | S754_zero s => if s then "-0.000000e+00" else "0.000000e+00"
  | S754_finite s m e =>
      (if s then "-" else "") +:+
      (if (0 <=? e)%Z then sci7 (Zpos m * 2 ^ e) 1 else sci7 (Zpos m) (2 ^ (- e)))
  end.

End Num.

(** ** Regular-expression scanning *)

Module Re.

(** [re.finditer]: scan from left to right; where the pattern matches, yield
    the match and resume after it; elsewhere move one character on.
    [match_at s] is the match of the pattern at the start of [s], with the
    text after the match. [skip] counts the characters of [s] that belong to
    the match just yielded. Both patterns of the program match at least one
    character, so nothing matches the empty string. *)
Fixpoint finditer_go {M} (match_at : string -> option (M * string))
    (skip : nat) (s : string) : list M :=
  match s with
  | EmptyString => []
  | String _ s' =>
      match skip with
      | S k => finditer_go match_at k s'
      | O =>
          match match_at s with
          | Some (m, rest) =>
              m :: finditer_go match_at
                     (String.length s - String.length rest - 1) s'
          | None => finditer_go match_at 0 s'
          end
      end
  end.

Definition finditer {M} (match_at : string -> option (M * string))
    (s : string) : list M :=
  finditer_go match_at 0 s.

Definition not_quote (c : ascii) : bool := negb (Ascii.eqb c Py.quote).

(** The pattern [(\w+)="([^"]+)"] at the start of [s]: both [+] are greedy,
    and giving back characters cannot help (the character after a shorter
    [\w+] is a word character, not [=]; after a shorter [[^"]+] it is not a
    quote), so the longest runs decide. *)
Definition match_param (s : string) : option ((string * string) * string) :=
  let '(k, r1) := Py.span Py.is_word s in
  if Py.is_empty k then None
  else
    match r1 with
    | String "=" (String q r2) =>
        if Ascii.eqb q Py.quote then
          let '(v, r3) := Py.span not_quote r2 in
          if Py.is_empty v then None
          else
            match r3 with
            | String q' r4 =>
                if Ascii.eqb q' Py.quote then Some ((k, v), r4) else None
            | EmptyString => None
            end
        else None
    | _ => None
    end.

(** The first occurrence of [tag] in [s]: the text before it and after it. *)
Fixpoint find_close (tag s : string) : option (string * string) :=
  if String.prefix tag s then Some (EmptyString, Py.skipn (String.length tag) s)
  else
    match s with
    | EmptyString => None
    | String c s' =>
        match find_close tag s' with
        | Some (d, r) => Some (String c d, r)
        | None => None
        end
    end.

Record block := {
  kind : string;
  name : string;
  type_name : string;
  data : string;
}.

(** The pattern [<((?:in)?dep)\s+(\w+)\s+(\w+)>(.*?)</\1>] (with DOTALL) at
    the start of [s]. The greedy runs are again decided by their longest
    form, and the lazy [(.*?)] ends at the first closing tag of the kind. *)
Definition match_block (s : string) : option (block * string) :=
  match s with
  | String "<" s1 =>
      k ← (if String.prefix "indep" s1 then Some ("indep", Py.skipn 5 s1)
           else if String.prefix "dep" s1 then Some ("dep", Py.skipn 3 s1)
           else None);
      let '(kd, s2) := k in
      let '(w1, s3) := Py.span Py.is_space s2 in
      let '(nm, s4) := Py.span Py.is_word s3 in
      let '(w2, s5) := Py.span Py.is_space s4 in
      let '(ty, s6) := Py.span Py.is_word s5 in
      if Py.is_empty w1 || Py.is_empty nm || Py.is_empty w2 || Py.is_empty ty
      then None
      else
        match s6 with
        | String ">" s7 =>
            '(d, rest) ← find_close ("</" +:+ kd +:+ ">") s7;
            Some ({| kind := kd; name := nm; type_name := ty; data := d |}, rest)
        | _ => None
        end
  | _ => None
  end.

End Re.

(** ** The netlist parser, the node index, the assembler and the solver
    ([solve] of [bin/tiny_qucsator.py]) *)

Abbreviation params := (gmap string string).

(** A component instance: the dictionary with keys [type], [name], [nodes]
    and [params]. Python compares two of them by their contents. *)
Record component := {
  ctype : string;
  cname : string;
  cnodes : list string;
  cparams : params;
}.

#[global] Instance component_eq_dec : EqDecision component.
Proof. solve_decision. Defined.

Abbreviation matrix := (list (list float)).
Abbreviation vector := (list float).

(** [sum] over floats: sequential additions, or from CPython 3.12 on the
    compensated (Neumaier) summation. *)
Variant summation := Sequential | Compensated.

Module Solver.

Local Open Scope float_scope.

(** The [key="value"] pairs of a line, a later pair overwriting an earlier
    one with the same key. *)
Definition line_params (line : string) (init : params) : params :=
  foldl (fun m kv => <[kv.1 := kv.2]> m) init (Re.finditer Re.match_param line).

(** The tokens after the first, up to the first one that contains [=]. *)
Fixpoint node_tokens (parts : list string) : list string :=
  match parts with
  | [] => []
  | p :: parts' => if Py.contains "=" p then [] else p :: node_tokens parts'
  end.

Record parsed := {
  nodes : gset string;
  components : list component;
  sim_cmd : option params;
}.

Definition parse_line (st : parsed) (line0 : string) : result parsed :=
  let line := Py.strip line0 in
  if Py.is_empty line || Py.startswith "#" line then Ok st
  else
    let ps := line_params line ∅ in
    match Py.split line with
    | [] => Raise IndexError
    | type_id :: rest =>
        if Py.startswith ".DC" type_id
        then Ok {| nodes := nodes st; components := components st;
                   sim_cmd := Some ps |}
        else if negb (Py.contains ":" type_id) then Ok st
        else
          match Py.split_on ":" type_id with
          | ty :: nm :: _ =>
              let node_list := node_tokens rest in
              Ok {| nodes := nodes st ∪ list_to_set node_list;
                    components := components st ++
                      [{| ctype := ty; cname := nm; cnodes := node_list;
                          cparams := ps |}];
                    sim_cmd := sim_cmd st |}
          | _ => Raise IndexError
          end
    end.

Definition parse (netlist_str : string) : result parsed :=
  foldM parse_line (Py.splitlines netlist_str)
    {| nodes := ∅; components := []; sim_cmd := None |}.

(** [l.remove(x)] guarded by [x in l]. *)
Fixpoint remove_first (x : string) (l : list string) : list string :=
  match l with
  | [] => []
  | y :: l' => if String.eqb x y then l' else y :: remove_first x l'
  end.

(** [sorted(list(nodes))] without ["0"] and ["gnd"]. *)
Definition sorted_nodes (ns : gset string) : list string :=
  remove_first "gnd" (remove_first "0" (merge_sort String.le (elements ns))).

(** [{n: i for i, n in enumerate(sorted_nodes)}], in insertion order. *)
Definition index_nodes (l : list string) : list (string * nat) :=
  zip l (seq 0 (length l)).

Fixpoint lookup_node (n : string) (m : list (string * nat)) : option nat :=
  match m with
  | [] => None
  | (k, i) :: m' => if String.eqb n k then Some i else lookup_node n m'
  end.

(** [l.index(x)]: the first position holding a value equal to [x]. *)
Fixpoint list_index (c : component) (l : list component) : option nat :=
  match l with
  | [] => None
  | c' :: l' => if decide (c' = c) then Some O else S <$> list_index c l'
  end.

Definition mget (G : matrix) (i j : nat) : float :=
  default 0 (G !! i ≫= (.!! j)).

Definition mset (G : matrix) (i j : nat) (v : float) : matrix :=
  alter (<[j := v]>) i G.

Definition vget (v : vector) (i : nat) : float := default 0 (v !! i).

Definition zeros (size : nat) : vector := replicate size 0.

(** The index of a node: [-1] for the reference node. *)
Definition node_index (node_map : list (string * nat)) (n : string) : result Z :=
  if String.eqb n "0" || String.eqb n "gnd" then Ok (-1)%Z
  else i ← of_option KeyError (lookup_node n node_map); Ok (Z.of_nat i).

Fixpoint mapM {A B} (f : A -> result B) (l : list A) : result (list B) :=
  match l with
  | [] => Ok []
  | a :: l' => b ← f a; bs ← mapM f l'; Ok (b :: bs)
  end.

(** [n1, n2 = nis[0], nis[1]] *)
Definition first_two (nis : list Z) : result (Z * Z) :=
  match nis with
  | n1 :: n2 :: _ => Ok (n1, n2)
  | _ => Raise IndexError
  end.

Definition get (ps : params) (key dflt : string) : string :=
  default dflt (ps !! key).

Definition stamp (node_map : list (string * nat)) (N : nat)
    (vsources : list component) (st : matrix * vector) (c : component)
    : result (matrix * vector) :=
  let '(G, Iv) := st in
  nis ← mapM (node_index node_map) (cnodes c);
  if String.eqb (ctype c) "R" then
    val ← of_option ValueError (Num.float_of_str (get (cparams c) "R" "1000"));
    g_val ← Num.div 1 val;
    '(n1, n2) ← first_two nis;
    let i1 := Z.to_nat n1 in
    let i2 := Z.to_nat n2 in
    let G := if (0 <=? n1)%Z then mset G i1 i1 (mget G i1 i1 + g_val) else G in
    let G := if (0 <=? n2)%Z then mset G i2 i2 (mget G i2 i2 + g_val) else G in
    let G :=
      if (0 <=? n1)%Z && (0 <=? n2)%Z then
        let G := mset G i1 i2 (mget G i1 i2 - g_val) in
        mset G i2 i1 (mget G i2 i1 - g_val)
      else G in
    Ok (G, Iv)
  else if String.eqb (ctype c) "Vdc" then
    k ← of_option ValueError (list_index c vsources);
    let v_idx := (N + k)%nat in
    val ← of_option ValueError (Num.float_of_str (get (cparams c) "U" "1"));
    '(n1, n2) ← first_two nis;
    let i1 := Z.to_nat n1 in
    let i2 := Z.to_nat n2 in
    let G :=
      if (0 <=? n1)%Z then
        let G := mset G i1 v_idx (mget G i1 v_idx + 1) in
        mset G v_idx i1 (mget G v_idx i1 + 1)
      else G in
    let G :=
      if (0 <=? n2)%Z then
        let G := mset G i2 v_idx (mget G i2 v_idx - 1) in
        mset G v_idx i2 (mget G v_idx i2 - 1)
      else G in
    Ok (G, <[v_idx := vget Iv v_idx + val]> Iv)
  else Ok (G, Iv).

Definition is_vdc (c : component) : bool := String.eqb (ctype c) "Vdc".

(** The system as assembled: the node map, [N], and [(G, I)] ([I] is [Iv]
    here). *)
Definition assemble (p : parsed)
    : result (list (string * nat) * nat * (matrix * vector)) :=
  let node_map := index_nodes (sorted_nodes (nodes p)) in
  let N := length node_map in
  let vsources := filter (fun c => is_vdc c = true) (components p) in
  let size := (N + length vsources)%nat in
  st ← foldM (stamp node_map N vsources) (components p)
         (replicate size (zeros size), zeros size);
  Ok (node_map, N, st).

(** The pivot threshold: the binary64 value of the literal [1e-12]. *)
Definition tol : float := 0x1.19799812dea11p-40.

(** Row [j] minus [factor] times row [i], from column [i] on. *)
Definition eliminate (size i : nat) (pivot : float) (st : matrix * vector)
    (j : nat) : result (matrix * vector) :=
  let '(G, Iv) := st in
  factor ← Num.div (mget G j i) pivot;
  let Iv := <[j := vget Iv j - factor * vget Iv i]> Iv in
  let G := foldl (fun G k => mset G j k (mget G j k - factor * mget G i k))
             G (seq i (size - i)) in
  Ok (G, Iv).

Definition forward_step (size : nat) (st : matrix * vector) (i : nat)
    : result (matrix * vector) :=
  let pivot := mget st.1 i i in
  if abs pivot <? tol then Ok st
  else foldM (eliminate size i pivot) (seq (S i) (size - S i)) st.

Definition forward (size : nat) (st : matrix * vector)
    : result (matrix * vector) :=
  foldM (forward_step size) (seq 0 size) st.

(** One step of the compensated sum: the running total and its correction. *)
Definition cs_add (acc : float * float) (x : float) : float * float :=
  let '(total, c) := acc in
  let t := total + x in
  if abs x <=? abs total then (t, c + ((total - t) + x))
  else (t, c + ((x - t) + total)).

(** [sum(terms)], which starts from the integer [0]. *)
Definition py_sum (alg : summation) (terms : vector) : float :=
  match alg with
  | Sequential => foldl PrimFloat.add 0 terms
  | Compensated =>
      match terms with
      | [] => 0
      | t :: terms' =>
          let '(total, c) := foldl cs_add (0 + t, 0) terms' in
          if negb (Num.is_zero c) && PrimFloat.is_finite c then total + c
          else total
      end
  end.

Definition backward_step (alg : summation) (size : nat) (G : matrix)
    (Iv : vector) (x : vector) (i : nat) : result vector :=
  let sum_val :=
    py_sum alg (map (fun j => mget G i j * vget x j) (seq (S i) (size - S i))) in
  if tol <? abs (mget G i i) then
    xi ← Num.div (vget Iv i - sum_val) (mget G i i);
    Ok (<[i := xi]> x)
  else Ok x.

Definition backward (alg : summation) (size : nat) (G : matrix) (Iv : vector)
    : result vector :=
  foldM (backward_step alg size G Iv) (rev (seq 0 size)) (zeros size).

(** [solve(netlist_str)]: the node map and the solution vector. *)
Definition solve (alg : summation) (netlist_str : string)
    : result (list (string * nat) * vector) :=
  p ← parse netlist_str;
  '(node_map, N, st) ← assemble p;
  let size := length st.2 in
  '(G, Iv) ← forward size st;
  x ← backward alg size G Iv;
  Ok (node_map, x).

End Solver.

(** ** The result encoder ([main] of [bin/tiny_qucsator.py]) *)

Module Encoder.

Local Open Scope float_scope.

Definition nl : string := String Py.newline EmptyString.

(** The sweep parameters as [main] reads them again: the pairs of every
    line that starts with [.DC], written into one dictionary. *)
Definition sweep_params (netlist : string) : params :=
  foldl (fun sp line =>
           if Py.startswith ".DC" (Py.strip line)
           then Solver.line_params line sp else sp)
    ∅ (Py.splitlines netlist).

(** [step] is a float, or the integer [0]. *)
Variant num := Int (z : Z) | Float (f : float).

(** [range(n)] *)
Definition range (n : Z) : list Z := Z.of_nat <$> seq 0 (Z.to_nat n).

(** [start + i*step] *)
Definition sweep_value (start : float) (step : num) (i : Z) : result float :=
  match step with
  | Int z => d ← Num.of_int (i * z); Ok (start + d)
  | Float s => fi ← Num.of_int i; Ok (start + fi * s)
  end.

Definition value_line (v : float) : string := Num.format_e v +:+ nl.

Definition dep_block (soln : vector) (param : string) (points : Z)
    (entry : string * nat) : result string :=
  let '(node, idx) := entry in
  val ← of_option IndexError (soln !! idx);
  Ok ("<dep " +:+ node +:+ " " +:+ param +:+ ">" +:+ nl
      +:+ Py.concat (replicate (Z.to_nat points) (value_line val))
      +:+ "</dep>" +:+ nl).

(** The text written to the output file. *)
Definition encode (node_map : list (string * nat)) (soln : vector)
    (sim_params : params) : result string :=
  start ← of_option ValueError
            (Num.float_of_str (Solver.get sim_params "Start" "0"));
  stop ← of_option ValueError
           (Num.float_of_str (Solver.get sim_params "Stop" "10"));
  points ← of_option ValueError
             (Num.int_of_str (Solver.get sim_params "Points" "2"));
  let param := Solver.get sim_params "Param" "sweep" in
  step ← (if (1 <? points)%Z
          then q ← Num.div_int (stop - start) (points - 1); Ok (Float q)
          else Ok (Int 0));
  values ← Solver.mapM (sweep_value start step) (range points);
  deps ← Solver.mapM (dep_block soln param points) node_map;
  Ok ("<indep " +:+ param +:+ " " +:+ Num.str_of_int points +:+ ">" +:+ nl
      +:+ Py.concat (value_line <$> values)
      +:+ "</indep>" +:+ nl
      +:+ Py.concat deps).

(** [main]: the netlist text to the result text. *)
Definition run (alg : summation) (netlist : string) : result string :=
  '(node_map, soln) ← Solver.solve alg netlist;
  encode node_map soln (sweep_params netlist).

End Encoder.

(** ** The result decoder ([parse_qucs_dat] of [backend/main.py]) *)

Module Decoder.

(** A value of the returned dictionary: the error message, or the numbers
    of a block. *)
Variant value := Message (s : string) | Values (l : list float).

(** The tokens of a block that [float] accepts. *)
Definition block_values (d : string) : list float :=
  omap Num.float_of_str (Py.split (Py.strip d)).

Definition decode (content : string) : gmap string value :=
  foldl (fun results b => <[Re.name b := Values (block_values (Re.data b))]> results)
    ∅ (Re.finditer Re.match_block content).

(** [file] is the content of the output file, [None] when there is none. *)
Definition parse_qucs_dat (file : option string) : gmap string value :=
  match file with
  | None => {[ "error" := Message "No output file found" ]}
  | Some content => decode content
  end.

End Decoder.

(** ** Vocabulary of the statements *)

Module Spec.

Local Open Scope float_scope.

(** The token [key="value"]. *)
Definition kv (key val : string) : string :=
  key +:+ "=" +:+ String Py.quote EmptyString +:+ val
      +:+ String Py.quote EmptyString.

(** A netlist text from its lines. *)
Definition netlist (lines : list string) : string :=
  Py.concat ((fun l => l +:+ Encoder.nl) <$> lines).

(** The solved voltage of a node: [x] at the node's index. *)
Definition node_voltage (alg : summation) (text node : string) : result float :=
  '(node_map, x) ← Solver.solve alg text;
  i ← of_option KeyError (Solver.lookup_node node node_map);
  of_option IndexError (x !! i).

(** The system assembled from a netlist text. *)
Definition assembled (text : string)
    : result (list (string * nat) * nat * (matrix * vector)) :=
  p ← Solver.parse text; Solver.assemble p.

(** The 5 V source on [n1] with a 1 kOhm resistor to the otherwise
    unconnected [n2]. *)
Definition source_and_resistor : string :=
  netlist ["Vdc:V1 n1 0 " +:+ kv "U" "5"; "R:R1 n1 n2 " +:+ kv "R" "1000"].

(** Two voltage-source lines that read the same. *)
Definition twin_sources : string :=
  netlist ["Vdc:V1 n1 0 " +:+ kv "U" "5"; "Vdc:V1 n1 0 " +:+ kv "U" "5"].

(** A 1 TOhm resistor to ground beside a 5 V source: the first pivot is
    exactly the threshold. *)
Definition threshold_pivot : string :=
  netlist ["R:R1 n1 0 " +:+ kv "R" "1e12"; "Vdc:V1 n1 0 " +:+ kv "U" "5"].

(** Two sweep directives with different keys. *)
Definition two_directives : string :=
  netlist ["R:R1 n1 0 " +:+ kv "R" "1000";
           ".DC " +:+ kv "Points" "5";
           ".DC " +:+ kv "Start" "1"].

(** A component whose stamp can be computed: an [R] or [Vdc] line has two
    node tokens and a numeric value, which for [R] is not zero. *)
Definition component_ok (c : component) : bool :=
  if String.eqb (ctype c) "R" then
    match Num.float_of_str (Solver.get (cparams c) "R" "1000") with
    | Some v => negb (Num.is_zero v) && (2 <=? length (cnodes c))%nat
    | None => false
    end
  else if String.eqb (ctype c) "Vdc" then
    match Num.float_of_str (Solver.get (cparams c) "U" "1") with
    | Some _ => (2 <=? length (cnodes c))%nat
    | None => false
    end
  else true.

(** Sweep parameters that can be read: [Start] and [Stop] are float
    literals, [Points] is an integer literal and [Points - 1] is in the
    range of binary64. *)
Definition sweep_ok (sp : params) : bool :=
  match Num.float_of_str (Solver.get sp "Start" "0"),
        Num.float_of_str (Solver.get sp "Stop" "10"),
        Num.int_of_str (Solver.get sp "Points" "2") with
  | Some _, Some _, Some points => (points <=? Num.float_limit)%Z
  | _, _, _ => false
  end.

Definition well_formed (text : string) : bool :=
  match Solver.parse text with
  | Ok p => forallb component_ok (Solver.components p)
  | Raise _ => false
  end && sweep_ok (Encoder.sweep_params text).

(** The sweep parameters as numbers. *)
Definition read_sweep (sp : params) : option (float * float * Z) :=
  start ← Num.float_of_str (Solver.get sp "Start" "0");
  stop ← Num.float_of_str (Solver.get sp "Stop" "10");
  points ← Num.int_of_str (Solver.get sp "Points" "2");
  Some (start, stop, points).

(** The step of the sweep: [(Stop - Start) / (Points - 1)], and [0] for a
    single point. *)
Definition step_of (start stop : float) (points : Z) : float :=
  if (1 <? points)%Z then (stop - start) / Num.to_float (points - 1) else 0.

(** [Points] values from [Start] in steps of [step_of]. *)
Definition linspace (start stop : float) (points : Z) : list float :=
  (fun i => start + Num.to_float i * step_of start stop points)
    <$> Encoder.range points.

(** A block of the result format. *)
Definition block (kind name tag : string) (values : list float) : string :=
  "<" +:+ kind +:+ " " +:+ name +:+ " " +:+ tag +:+ ">" +:+ Encoder.nl
  +:+ Py.concat (Encoder.value_line <$> values)
  +:+ "</" +:+ kind +:+ ">" +:+ Encoder.nl.

(** Equal as numbers: IEEE [==], or both not a number. *)
Definition same_number (a b : float) : Prop :=
  (a =? b) = true \/ (PrimFloat.is_nan a = true /\ PrimFloat.is_nan b = true).

(** A sweep directive whose [Points] is beyond the range of binary64. *)
Definition huge_sweep : string :=
  netlist [".DC " +:+ kv "Points"
             (String "2" (string_of_list_ascii (replicate 308 "0"%char)))].

Definition of_result_option {A} (r : result A) : option A :=
  match r with Ok a => Some a | Raise _ => None end.

(** The system after forward elimination. *)
Definition eliminated (text : string) : result (matrix * vector) :=
  p ← Solver.parse text;
  '(_, _, st) ← Solver.assemble p;
  Solver.forward (length st.2) st.

(** A singular system: a source between the two spellings of the reference
    node, and a resistor from a node to itself. *)
Definition singular_circuit : string :=
  netlist ["Vdc:V1 0 gnd " +:+ kv "U" "5"; "R:R1 n1 n1 " +:+ kv "R" "1000"].

(** Every node token of a component is in the node set. *)
Definition nodes_closed (p : Solver.parsed) : Prop :=
  forall c n, c ∈ Solver.components p -> n ∈ cnodes c -> n ∈ Solver.nodes p.

(** The components of a netlist text. *)
Definition parsed_components (text : string) : list component :=
  match Solver.parse text with
  | Ok p => Solver.components p
  | Raise _ => []
  end.

(** The voltage sources, [M] of them. *)
Definition voltage_sources (text : string) : list component :=
  filter (fun c => Solver.is_vdc c = true) (parsed_components text).

(** Only [R] and [Vdc] components, each with at least two node tokens. *)
Definition resistors_and_sources (text : string) : bool :=
  forallb (fun c => (String.eqb (ctype c) "R" || String.eqb (ctype c) "Vdc")
                    && (2 <=? length (cnodes c))%nat)
    (parsed_components text).

Definition symmetric (G : matrix) : Prop :=
  forall i j : nat, Solver.mget G i j = Solver.mget G j i.

Definition square (size : nat) (G : matrix) : Prop :=
  length G = size /\ Forall (fun row => length row = size) G.

Definition all_word (s : string) : Prop :=
  forall c, In c (list_ascii_of_string s) -> Py.is_word c = true.

End Spec.

(** ** Vocabulary of the further properties *)

Module Shape.

Import Solver Encoder Decoder Spec.
Local Open Scope float_scope.

(** The sum of row [i] over the unknowns after [i]. *)
Definition row_sum (alg : summation) (size : nat) (G : matrix) (x : vector)
    (i : nat) : float :=
  py_sum alg (map (fun j => mget G i j * vget x j) (seq (S i) (size - S i))).

(** What back-substitution leaves in [x[i]]: the solved value when the
    diagonal is above the threshold, and the initial 0 otherwise. *)
Definition solved_value (alg : summation) (size : nat) (G : matrix)
    (Iv x : vector) (i : nat) : float :=
  if tol <? abs (mget G i i)
  then (vget Iv i - row_sum alg size G x i) / mget G i i
  else 0.

(** The rows [k .. size-1] hold their solved values, the rows above are
    still 0. *)
Definition back_substituted (alg : summation) (size : nat) (G : matrix)
    (Iv x : vector) (k : nat) : Prop :=
  length x = size /\
  (forall i, (k <= i < size)%nat -> vget x i = solved_value alg size G Iv x i) /\
  (forall i, (i < k)%nat -> vget x i = 0).

(** The [key="value"] pairs of all lines that start with [.DC], in order. *)
Definition dc_pairs (text : string) : list (string * string) :=
  mjoin (Re.finditer Re.match_param <$>
           filter (fun l => Py.startswith ".DC" (Py.strip l) = true)
                  (Py.splitlines text)).

(** The token [key=""], with nothing between the quotes. *)
Definition empty_value : string :=
  String "=" (String Py.quote (String Py.quote EmptyString)).

(** Every character of [s] passes [p]. *)
Definition all_chars (p : ascii -> bool) (s : string) : Prop :=
  forall c, In c (list_ascii_of_string s) -> p c = true.

(** A token of a line: not empty, and without blank. *)
Definition token (s : string) : Prop :=
  s <> EmptyString /\ all_chars (fun c => negb (Py.is_space c)) s.

(** A non-empty run of word characters, as the decoder's pattern wants a
    block name and tag. *)
Definition word (s : string) : Prop :=
  s <> EmptyString /\ all_chars Py.is_word s.

(** The characters of a formatted number. *)
Definition number_char (c : ascii) : bool :=
  Py.is_digit c || Ascii.eqb c "." || Ascii.eqb c "e" || Ascii.eqb c "+"
  || Ascii.eqb c "-" || Ascii.eqb c "i" || Ascii.eqb c "n" || Ascii.eqb c "f"
  || Ascii.eqb c "a".

(** A value as the decoder reads it back from the encoder's text. *)
Definition reread (v : float) : float :=
  default PrimFloat.nan (Num.float_of_str (Num.format_e v)).

(** A literal in scientific notation: sign, digits, point, digits, [e],
    sign, digits. *)
Definition sci_literal (neg : bool) (ip fp : string) (eneg : bool)
    (ed : string) : string :=
  (if neg then "-" else "") +:+ ip +:+ String "." fp
  +:+ String "e" (String (if eneg then "-" else "+")%char ed).

(** The text of a block followed by [rest], with its [body] between the
    opening tag and the closing tag. *)
Definition block_text (kind name tag body rest : string) : string :=
  String "<" (kind +:+ String " " (name +:+ String " " (tag +:+ String ">"
    (body +:+ String "<" (String "/" (kind +:+ String ">" rest)))))).

(** The lines of values between the tags of a block. *)
Definition block_body (values : list float) : string :=
  Encoder.nl +:+ Py.concat (Encoder.value_line <$> values).

Definition is_word_string (s : string) : bool :=
  negb (Py.is_empty s) && forallb Py.is_word (list_ascii_of_string s).

(** The record the decoder's pattern yields for a block of values. *)
Definition block_record (kind name tag : string) (values : list float)
    : Re.block :=
  {| Re.kind := kind; Re.name := name; Re.type_name := tag;
     Re.data := block_body values |}.

(** The first character of [s] exists and fails [p]. *)
Definition stops (p : ascii -> bool) (s : string) : Prop :=
  exists c r, s = String c r /\ p c = false.

Definition not_space (c : ascii) : bool := negb (Py.is_space c).

(** What the decoder returns for the encoder's text: under each word-named
    node the solved value, as often as there are points. *)
Definition decoded_node (soln : vector) (points : Z) (idx : nat)
    : Decoder.value :=
  Decoder.Values (replicate (Z.to_nat points) (reread (Solver.vget soln idx))).

(** A 5 V source on a node whose name is no word of the pattern's [\w+]. *)
Definition dashed_node : string :=
  netlist ["Vdc:V1 a-b 0 " +:+ kv "U" "5"].

(** [s] has an ASCII character outside [\w]. *)
Definition has_other_char (s : string) : Prop :=
  exists c, In c (list_ascii_of_string s) /\
    (nat_of_ascii c < 128)%nat /\ Py.is_word c = false.

(** Two voltage sources that differ. *)
Definition two_sources : string :=
  netlist ["Vdc:V1 n1 0 " +:+ kv "U" "5"; "Vdc:V2 n2 0 " +:+ kv "U" "3"].

(** A sweep whose span is beyond the range of binary64. *)
Definition wide_sweep : string :=
  netlist [".DC " +:+ kv "Start" "-1e308" +:+ " " +:+ kv "Stop" "1e308"
           +:+ " " +:+ kv "Points" "2"].



(** [" ".join(toks)] *)
Fixpoint words (toks : list string) : string :=
  match toks with
  | [] => EmptyString
  | t :: ts =>
      match ts with
      | [] => t
      | _ :: _ => t +:+ String " " (words ts)
      end
  end.



(** The line [ty:nm node ... node key=""], the parameter [key] written with
    nothing between its quotes. *)
Definition component_line (ty nm : string) (nodes : list string)
    (key : string) : string :=
  words ((ty +:+ String ":" nm) :: nodes ++ [key +:+ empty_value]).


End Shape.

(** * Properties *)

Import Solver Encoder Decoder Spec.
Local Open Scope float_scope.

(** ** Floats and the pivot threshold *)

Lemma Prim2SF_zero : Prim2SF 0 = S754_zero false.
Proof. reflexivity. Qed.

Lemma Prim2SF_tol : Prim2SF tol = S754_finite false 4951760157141521 (-92).
Proof. reflexivity. Qed.

Lemma is_zero_below_tol p : Num.is_zero p = true -> (abs p <? tol) = true.
Proof.
  unfold Num.is_zero.
  rewrite FloatAxioms.eqb_spec, FloatAxioms.ltb_spec, FloatAxioms.abs_spec,
    Prim2SF_zero, Prim2SF_tol.
  destruct (Prim2SF p) as [[]|[]| |[] m e]; done.
Qed.

Lemma above_tol_not_zero p : (tol <? abs p) = true -> Num.is_zero p = false.
Proof.
  unfold Num.is_zero.
  rewrite FloatAxioms.eqb_spec, FloatAxioms.ltb_spec, FloatAxioms.abs_spec,
    Prim2SF_zero, Prim2SF_tol.
  destruct (Prim2SF p) as [[]|[]| |[] m e]; done.
Qed.

Lemma div_ok a b : Num.is_zero b = false -> Num.div a b = Ok (a / b).
Proof. unfold Num.div. by intros ->. Qed.

(** *** The result monad *)

Lemma foldM_total {A S} (f : S -> A -> result S) (l : list A) :
  (forall s a, exists s', f s a = Ok s') ->
  forall s, exists s', foldM f l s = Ok s'.
Proof.
  intros Hf. induction l as [|a l IH]; intros s; simpl; [by eexists|].
  destruct (Hf s a) as [s' ->]. simpl. apply IH.
Qed.

Lemma foldM_invariant {A S} (P : S -> Prop) (f : S -> A -> result S) l :
  (forall s a s', P s -> f s a = Ok s' -> P s') ->
  forall s s', P s -> foldM f l s = Ok s' -> P s'.
Proof.
  intros Hf. induction l as [|a l IH]; intros s s' Hs; simpl.
  - by intros [= <-].
  - destruct (f s a) as [s1|] eqn:E; simpl; [|done]. eauto.
Qed.

(** *** Matrices *)

Lemma square_mset n G i j v : square n G -> square n (mset G i j v).
Proof.
  intros [Hl Hr]. split; unfold mset.
  - by rewrite length_alter.
  - apply Forall_lookup. intros k row Hk.
    rewrite Forall_lookup in Hr.
    destruct (decide (k = i)) as [->|Hne].
    + rewrite list_lookup_alter_eq in Hk.
      destruct (G !! i) as [r|] eqn:E; simplify_eq/=.
      rewrite length_insert. eauto.
    + rewrite list_lookup_alter_ne in Hk by done. eauto.
Qed.

Lemma mget_mset n G i j v a b :
  square n G -> (i < n)%nat -> (j < n)%nat ->
  mget (mset G i j v) a b = if decide (a = i /\ b = j) then v else mget G a b.
Proof.
  intros [Hl Hr] Hi Hj. unfold mget, mset.
  destruct (decide (a = i)) as [->|Hne].
  - rewrite list_lookup_alter_eq.
    destruct (G !! i) as [r|] eqn:E; simpl.
    2:{ apply lookup_ge_None in E. lia. }
    assert (length r = n) by (rewrite Forall_lookup in Hr; eauto).
    destruct (decide (b = j)) as [->|Hb].
    + rewrite list_lookup_insert_eq by lia. by rewrite decide_True.
    + rewrite list_lookup_insert_ne by done. rewrite decide_False by tauto. done.
  - rewrite list_lookup_alter_ne by done. rewrite decide_False by tauto. done.
Qed.

Lemma mset_out_of_range n G i j v :
  square n G -> ~ ((i < n)%nat /\ (j < n)%nat) -> mset G i j v = G.
Proof.
  intros [Hl Hr] Hout. unfold mset.
  apply list_eq. intros k.
  destruct (decide (k = i)) as [->|Hne].
  - rewrite list_lookup_alter_eq.
    destruct (G !! i) as [r|] eqn:E; simpl; [|done].
    assert (length r = n) by (rewrite Forall_lookup in Hr; eauto).
    apply lookup_lt_Some in E.
    rewrite list_insert_ge; [done|lia].
  - by rewrite list_lookup_alter_ne.
Qed.

(** Writing a cell and its mirror image with the same function of the old
    content keeps a symmetric matrix symmetric. *)
Lemma symmetric_mirror n G i j (f : float -> float) :
  square n G -> symmetric G ->
  let G1 := mset G i j (f (mget G i j)) in
  symmetric (mset G1 j i (f (mget G1 j i))).
Proof.
  intros Hsq Hsym G1.
  destruct (decide ((i < n)%nat /\ (j < n)%nat)) as [[Hi Hj]|Hout].
  - assert (square n G1) as Hsq1 by by apply square_mset.
    intros a b. rewrite !(mget_mset n) by done.
    subst G1. rewrite !(mget_mset n) by done.
    repeat case_decide; destruct_and?; simplify_eq; try done;
      try (by rewrite Hsym); try tauto.
  - subst G1. rewrite (mset_out_of_range n G i j) by done.
    rewrite (mset_out_of_range n G j i) by tauto. done.
Qed.

Lemma symmetric_diagonal n G i v :
  square n G -> symmetric G -> symmetric (mset G i i v).
Proof.
  intros Hsq Hsym.
  destruct (decide ((i < n)%nat)) as [Hi|Hout].
  - intros a b. rewrite !(mget_mset n) by done.
    repeat case_decide; destruct_and?; simplify_eq; try done; tauto.
  - rewrite (mset_out_of_range n G i i) by tauto. done.
Qed.

Lemma bind_Ok {A B} (m : result A) (k : A -> result B) b :
  m ≫= k = Ok b <-> exists a, m = Ok a /\ k a = Ok b.
Proof.
  destruct m as [a|e]; simpl; split.
  - intros H. by exists a.
  - by intros (a' & [= ->] & H).
  - done.
  - by intros (a' & [=] & _).
Qed.

Ltac inv_bind H :=
  repeat match type of H with
  | _ ≫= _ = Ok _ =>
      let x := fresh "x" in let E := fresh "E" in
      apply bind_Ok in H as (x & E & H)
  | (let '(_, _) := ?p in _) = Ok _ => destruct p
  end.

Lemma symmetric_zeros size : symmetric (replicate size (zeros size)).
Proof.
  intros i j. unfold mget, zeros.
  assert (forall a b, default 0 (replicate size (replicate size 0) !! a
                                   ≫= (.!! b)) = 0) as Hz.
  { intros a b. destruct (replicate size (replicate size 0) !! a) as [r|] eqn:E;
      simpl; [|done].
    apply lookup_replicate in E as [-> _].
    destruct (replicate size 0 !! b) as [v|] eqn:E'; simpl; [|done].
    by apply lookup_replicate in E' as [-> _]. }
  by rewrite !Hz.
Qed.

Lemma square_zeros size : square size (replicate size (zeros size)).
Proof.
  split; [apply length_replicate|].
  apply Forall_replicate. apply length_replicate.
Qed.

Lemma stamp_symmetric n node_map N vs G Iv c G' Iv' :
  square n G -> symmetric G ->
  stamp node_map N vs (G, Iv) c = Ok (G', Iv') ->
  square n G' /\ symmetric G'.
Proof.
  intros Hsq Hsym H. unfold stamp in H.
  apply bind_Ok in H as (nis & _ & H).
  destruct (String.eqb (ctype c) "R").
  - apply bind_Ok in H as (val & _ & H).
    apply bind_Ok in H as (g & _ & H).
    apply bind_Ok in H as ([n1 n2] & _ & H).
    injection H as <- <-.
    set (G1 := if (0 <=? n1)%Z then _ else G).
    assert (square n G1 /\ symmetric G1) as [Hsq1 Hsym1].
    { subst G1. destruct (0 <=? n1)%Z; [|done].
      split; [by apply square_mset | by eapply symmetric_diagonal]. }
    set (G2 := if (0 <=? n2)%Z then _ else G1).
    assert (square n G2 /\ symmetric G2) as [Hsq2 Hsym2].
    { subst G2. destruct (0 <=? n2)%Z; [|done].
      split; [by apply square_mset | by eapply symmetric_diagonal]. }
    destruct ((0 <=? n1)%Z && (0 <=? n2)%Z); [|done].
    split; [by do 2 apply square_mset|].
    by apply (symmetric_mirror n G2 _ _ (fun x => x - g)).
  - destruct (String.eqb (ctype c) "Vdc"); [|by injection H as <- <-].
    apply bind_Ok in H as (k & _ & H).
    apply bind_Ok in H as (val & _ & H).
    apply bind_Ok in H as ([n1 n2] & _ & H).
    injection H as <- <-.
    set (G1 := if (0 <=? n1)%Z then _ else G).
    assert (square n G1 /\ symmetric G1) as [Hsq1 Hsym1].
    { subst G1. destruct (0 <=? n1)%Z; [|done].
      split; [by do 2 apply square_mset|].
      by apply (symmetric_mirror n G _ _ (fun x => x + 1)). }
    destruct (0 <=? n2)%Z; [|done].
    split; [by do 2 apply square_mset|].
    by apply (symmetric_mirror n G1 _ _ (fun x => x - 1)).
Qed.

Lemma assemble_symmetric p node_map N G Iv :
  assemble p = Ok (node_map, N, (G, Iv)) ->
  N = length (sorted_nodes (nodes p)) /\
  square (N + length (filter (fun c => is_vdc c = true) (components p))) G /\
  symmetric G.
Proof.
  unfold assemble. intros H.
  apply bind_Ok in H as ([G0 I0] & Hfold & [= <- <- <- <-]).
  split.
  { unfold index_nodes. rewrite length_zip, length_seq. lia. }
  eapply (foldM_invariant
            (fun st => square _ st.1 /\ symmetric st.1)) in Hfold; [exact Hfold| |].
  - intros [G1 I1] c [G2 I2] [? ?] Hs. simpl in *. by eapply stamp_symmetric.
  - simpl. split; [apply square_zeros | apply symmetric_zeros].
Qed.

(** *** The solver never raises *)

Lemma eliminate_total size i pivot st j :
  (abs pivot <? tol) = false -> exists st', eliminate size i pivot st j = Ok st'.
Proof.
  intros Hp. destruct st as [G Iv]. unfold eliminate.
  rewrite div_ok; [by eexists|].
  destruct (Num.is_zero pivot) eqn:E; [|done].
  apply is_zero_below_tol in E. congruence.
Qed.

Lemma forward_step_total size st i : exists st', forward_step size st i = Ok st'.
Proof.
  unfold forward_step.
  destruct (abs (mget st.1 i i) <? tol) eqn:E; [by eexists|].
  apply foldM_total. intros. by apply eliminate_total.
Qed.

Lemma forward_total size st : exists st', forward size st = Ok st'.
Proof. apply foldM_total. intros. apply forward_step_total. Qed.

Lemma backward_step_total alg size G Iv x i :
  exists x', backward_step alg size G Iv x i = Ok x'.
Proof.
  unfold backward_step.
  destruct (tol <? abs (mget G i i)) eqn:E; [|by eexists].
  rewrite div_ok by by apply above_tol_not_zero. by eexists.
Qed.

Lemma backward_total alg size G Iv : exists x, backward alg size G Iv = Ok x.
Proof. apply foldM_total. intros. apply backward_step_total. Qed.

Lemma backward_step_length alg size G Iv x i x' :
  backward_step alg size G Iv x i = Ok x' -> length x' = length x.
Proof.
  unfold backward_step.
  destruct (tol <? abs (mget G i i)); [|by intros [= <-]].
  intros H. apply bind_Ok in H as (xi & _ & [= <-]). apply length_insert.
Qed.

Lemma backward_length alg size G Iv x :
  backward alg size G Iv = Ok x -> length x = size.
Proof.
  intros H. unfold backward in H.
  eapply (foldM_invariant (fun x => length x = size)) in H; [done| |].
  - intros ??? Hl Hs. apply backward_step_length in Hs. congruence.
  - apply length_replicate.
Qed.

(** *** The parser never raises *)

Lemma split_head c s : Py.is_space c = false -> Py.split (String c s) <> [].
Proof.
  intros Hc. simpl. rewrite Hc.
  destruct s as [|c' s']; [done|].
  destruct (Py.is_space c'); [done|].
  by destruct (Py.split (String c' s')).
Qed.

Lemma lstrip_head s c r : Py.lstrip s = String c r -> Py.is_space c = false.
Proof.
  induction s as [|a s IH]; simpl; [done|].
  destruct (Py.is_space a) eqn:E; [done|]. by intros [= <- <-].
Qed.

Lemma rstrip_head c s : Py.is_space c = false ->
  exists r, Py.rstrip (String c s) = String c r.
Proof.
  intros Hc. simpl. rewrite Hc. destruct (Py.rstrip s); by eexists.
Qed.

Lemma rstrip_cons_head a s c r : Py.rstrip (String a s) = String c r -> a = c.
Proof.
  simpl. destruct (Py.rstrip s); [destruct (Py.is_space a)|]; congruence.
Qed.

Lemma strip_head s c r : Py.strip s = String c r -> Py.is_space c = false.
Proof.
  unfold Py.strip. destruct (Py.lstrip s) as [|a u] eqn:E; [done|].
  intros H. apply rstrip_cons_head in H as <-. by eapply lstrip_head.
Qed.

Lemma split_strip_nonempty s :
  Py.is_empty (Py.strip s) = false -> Py.split (Py.strip s) <> [].
Proof.
  destruct (Py.strip s) as [|c r] eqn:E; [done|]. intros _.
  apply split_head. by eapply strip_head.
Qed.

Lemma split_on_two c s :
  Py.contains c s = true -> exists a b r, Py.split_on c s = a :: b :: r.
Proof.
  induction s as [|c' s IH]; simpl; [done|].
  destruct (Ascii.eqb c c'); simpl.
  - intros _. destruct s; simpl; [by eauto|].
    destruct (Ascii.eqb c a); [by eauto|].
    destruct (Py.split_on c s); by eauto.
  - intros H. destruct (IH H) as (a & b & r & ->). by eauto.
Qed.

Lemma parse_line_total st line : exists st', parse_line st line = Ok st'.
Proof.
  unfold parse_line.
  destruct (Py.is_empty (Py.strip line)) eqn:E; simpl; [by eexists|].
  destruct (Py.startswith "#" (Py.strip line)); [by eexists|].
  pose proof (split_strip_nonempty _ E) as Hne.
  destruct (Py.split (Py.strip line)) as [|type_id rest]; [done|].
  destruct (Py.startswith ".DC" type_id); [by eexists|].
  destruct (Py.contains ":" type_id) eqn:Ec; simpl; [|by eexists].
  destruct (split_on_two _ _ Ec) as (a & b & r & ->). by eexists.
Qed.

Lemma parse_total text : exists p, parse text = Ok p.
Proof. apply foldM_total. intros. apply parse_line_total. Qed.

Lemma parse_line_closed st line st' :
  nodes_closed st -> parse_line st line = Ok st' -> nodes_closed st'.
Proof.
  intros Hcl. unfold parse_line.
  destruct (Py.is_empty (Py.strip line) || Py.startswith "#" (Py.strip line));
    [by intros [= <-]|].
  destruct (Py.split (Py.strip line)) as [|type_id rest]; [done|].
  destruct (Py.startswith ".DC" type_id); [by intros [= <-]|].
  destruct (negb (Py.contains ":" type_id)); [by intros [= <-]|].
  destruct (Py.split_on ":" type_id) as [|ty [|nm r]]; [done..|].
  intros [= <-]. intros c n; simpl.
  rewrite elem_of_app, list_elem_of_singleton, elem_of_union, elem_of_list_to_set.
  intros [Hc | ->] Hn; [left; by eapply Hcl | right; done].
Qed.

Lemma parse_closed text p : parse text = Ok p -> nodes_closed p.
Proof.
  intros H. eapply (foldM_invariant nodes_closed) in H; [done| |].
  - intros ???. apply parse_line_closed.
  - intros c n. simpl. by rewrite elem_of_nil.
Qed.

(** *** The node index *)

Lemma elem_of_remove_first x y l :
  x ∈ l -> x <> y -> x ∈ remove_first y l.
Proof.
  induction l as [|z l IH]; simpl; [done|].
  rewrite elem_of_cons. intros [->|Hin] Hne.
  - destruct (String.eqb_spec y z) as [->|]; [done|]. apply list_elem_of_here.
  - destruct (String.eqb_spec y z); [done|]. apply list_elem_of_further. auto.
Qed.

Lemma elem_of_sorted_nodes ns n :
  n ∈ ns -> n <> "0" -> n <> "gnd" -> n ∈ sorted_nodes ns.
Proof.
  intros Hn H0 Hg. unfold sorted_nodes.
  apply elem_of_remove_first; [|done]. apply elem_of_remove_first; [|done].
  rewrite merge_sort_Permutation. by apply elem_of_elements.
Qed.

Lemma lookup_node_zip n l k :
  n ∈ l -> exists i, lookup_node n (zip l (seq k (length l))) = Some i.
Proof.
  revert k. induction l as [|a l IH]; intros k; simpl.
  - by rewrite elem_of_nil.
  - rewrite elem_of_cons. intros Hin.
    destruct (String.eqb_spec n a) as [->|Hne]; [by eexists|].
    destruct Hin as [->|Hin]; [done|]. by apply IH.
Qed.

Lemma lookup_node_bound n l k i :
  lookup_node n (zip l (seq k (length l))) = Some i -> (k <= i < k + length l)%nat.
Proof.
  revert k. induction l as [|a l IH]; intros k; simpl; [done|].
  destruct (String.eqb n a); [intros [= <-]; lia|].
  intros H. apply IH in H. lia.
Qed.

Lemma mapM_total {A B} (f : A -> result B) l :
  Forall (fun a => exists b, f a = Ok b) l -> exists bs, mapM f l = Ok bs.
Proof.
  induction 1 as [|a l [b Hb] _ [bs IH]]; simpl; [by eexists|].
  rewrite Hb; simpl. rewrite IH; simpl. by eexists.
Qed.

Lemma mapM_length {A B} (f : A -> result B) l bs :
  mapM f l = Ok bs -> length bs = length l.
Proof.
  revert bs. induction l as [|a l IH]; intros bs; simpl; [by intros [= <-]|].
  intros H. apply bind_Ok in H as (b & _ & H).
  apply bind_Ok in H as (bs' & Hbs & [= <-]). simpl. f_equal. by apply IH.
Qed.

Lemma node_index_total ns n :
  n ∈ ns -> exists z, node_index (index_nodes (sorted_nodes ns)) n = Ok z.
Proof.
  intros Hn. unfold node_index.
  destruct (String.eqb_spec n "0"); simpl; [by eexists|].
  destruct (String.eqb_spec n "gnd"); simpl; [by eexists|].
  destruct (lookup_node_zip n (sorted_nodes ns) 0) as [i Hi].
  { by apply elem_of_sorted_nodes. }
  unfold index_nodes. rewrite Hi. simpl. by eexists.
Qed.

Lemma list_index_total c l : c ∈ l -> exists k, list_index c l = Some k.
Proof.
  induction l as [|c' l IH]; simpl; [by rewrite elem_of_nil|].
  rewrite elem_of_cons. intros Hin.
  destruct (decide (c' = c)); [by eexists|].
  destruct Hin as [->|Hin]; [done|].
  destruct (IH Hin) as [k ->]. by eexists.
Qed.

(** *** The assembler raises only on a component that is not [component_ok] *)

Lemma stamp_total ns N vs st c :
  (forall n, n ∈ cnodes c -> n ∈ ns) ->
  component_ok c = true ->
  (is_vdc c = true -> c ∈ vs) ->
  exists st', stamp (index_nodes (sorted_nodes ns)) N vs st c = Ok st'.
Proof.
  intros Hcl Hok Hvs. destruct st as [G Iv]. unfold stamp.
  destruct (mapM_total (node_index (index_nodes (sorted_nodes ns))) (cnodes c))
    as [nis Hnis].
  { apply Forall_forall. intros n Hn. by apply node_index_total, Hcl. }
  rewrite Hnis. simpl.
  pose proof (mapM_length _ _ _ Hnis) as Hlen.
  unfold component_ok, is_vdc in *.
  destruct (String.eqb (ctype c) "R").
  - destruct (Num.float_of_str _) as [v|]; [|done]. simpl.
    apply andb_true_iff in Hok as [Hz Hl%Nat.leb_le].
    rewrite div_ok by by apply negb_true_iff. simpl.
    destruct nis as [|n1 [|n2 nis]]; simpl in *; [lia..|]. by eexists.
  - destruct (String.eqb (ctype c) "Vdc"); [|by eexists].
    destruct (list_index_total c vs) as [k ->]; [by apply Hvs|]. simpl.
    destruct (Num.float_of_str _) as [v|]; [|done]. simpl.
    apply Nat.leb_le in Hok.
    destruct nis as [|n1 [|n2 nis]]; simpl in *; [lia..|]. by eexists.
Qed.

Lemma foldM_total_on {A S} (P : A -> Prop) (f : S -> A -> result S) l :
  (forall s a, P a -> exists s', f s a = Ok s') -> Forall P l ->
  forall s, exists s', foldM f l s = Ok s'.
Proof.
  intros Hf. induction 1 as [|a l Ha _ IH]; intros s; simpl; [by eexists|].
  destruct (Hf s a Ha) as [s' ->]. simpl. apply IH.
Qed.

Lemma assemble_total p :
  nodes_closed p -> forallb component_ok (components p) = true ->
  exists r, assemble p = Ok r.
Proof.
  intros Hcl Hok. unfold assemble.
  set (vs := filter _ _).
  edestruct (foldM_total_on
    (fun c => c ∈ components p /\ component_ok c = true)
    (stamp (index_nodes (sorted_nodes (nodes p)))
       (length (index_nodes (sorted_nodes (nodes p)))) vs)) as [st ->].
  - intros st c [Hin Hc]. apply stamp_total; [by eauto|done|].
    intros Hv. subst vs. by apply list_elem_of_filter.
  - apply Forall_forall. intros c Hc. split; [done|].
    rewrite forallb_forall in Hok. by apply Hok, list_elem_of_In.
  - simpl. by eexists.
Qed.

Lemma stamp_length node_map N vs G Iv c G' Iv' :
  stamp node_map N vs (G, Iv) c = Ok (G', Iv') -> length Iv' = length Iv.
Proof.
  unfold stamp. intros H.
  apply bind_Ok in H as (nis & _ & H).
  destruct (String.eqb (ctype c) "R").
  - apply bind_Ok in H as (val & _ & H).
    apply bind_Ok in H as (g & _ & H).
    apply bind_Ok in H as ([n1 n2] & _ & H). by injection H as <- <-.
  - destruct (String.eqb (ctype c) "Vdc"); [|by injection H as <- <-].
    apply bind_Ok in H as (k & _ & H).
    apply bind_Ok in H as (val & _ & H).
    apply bind_Ok in H as ([n1 n2] & _ & H).
    injection H as <- <-. apply length_insert.
Qed.

Lemma assemble_shape p node_map N G Iv :
  assemble p = Ok (node_map, N, (G, Iv)) ->
  node_map = index_nodes (sorted_nodes (nodes p)) /\
  N = length (sorted_nodes (nodes p)) /\
  (N <= length Iv)%nat.
Proof.
  unfold assemble. intros H.
  apply bind_Ok in H as ([G0 I0] & Hfold & [= <- <- <- <-]).
  split; [done|].
  assert (length (index_nodes (sorted_nodes (nodes p)))
          = length (sorted_nodes (nodes p))) as Hn.
  { unfold index_nodes. rewrite length_zip, length_seq. lia. }
  split; [done|].
  set (size := (length (index_nodes (sorted_nodes (nodes p))) + _)%nat) in Hfold.
  eapply (foldM_invariant (fun st => length st.2 = size)) in Hfold.
  - simpl in Hfold. rewrite Hfold. subst size. lia.
  - intros [G1 I1] c [G2 I2] Hl Hs. simpl in *.
    apply stamp_length in Hs. by rewrite Hs.
  - simpl. apply length_replicate.
Qed.

(** *** The encoder raises only on sweep parameters that are not [sweep_ok] *)


Lemma of_int_ok z : (Z.abs z < Num.float_limit)%Z -> exists d, Num.of_int z = Ok d.
Proof.
  intros Hz. unfold Num.of_int.
  apply Z.ltb_lt in Hz. rewrite Hz. by eexists.
Qed.

Lemma float_limit_pos : (0 < Num.float_limit)%Z.
Proof. by apply Z.ltb_lt. Qed.

Lemma elem_of_range i n : i ∈ range n -> (0 <= i < n)%Z.
Proof.
  unfold range. rewrite list_elem_of_fmap. intros (k & -> & Hk).
  apply elem_of_seq in Hk. lia.
Qed.

Lemma sweep_value_total start step points i :
  (points <= Num.float_limit)%Z -> i ∈ range points ->
  step = Int 0 \/ (exists s, step = Float s) ->
  exists v, sweep_value start step i = Ok v.
Proof.
  intros Hp Hi%elem_of_range Hstep. pose proof float_limit_pos.
  unfold sweep_value. destruct Hstep as [->|[s ->]].
  - destruct (of_int_ok (i * 0)) as [d ->]; [lia|]. by eexists.
  - destruct (of_int_ok i) as [d ->]; [lia|]. by eexists.
Qed.

Lemma encode_total node_map soln sp :
  sweep_ok sp = true ->
  Forall (fun e => (e.2 < length soln)%nat) node_map ->
  exists text, encode node_map soln sp = Ok text.
Proof.
  intros Hok Hidx. unfold encode, sweep_ok in *.
  destruct (Num.float_of_str (get sp "Start" "0")) as [start|]; [|done].
  destruct (Num.float_of_str (get sp "Stop" "10")) as [stop|]; [|done].
  destruct (Num.int_of_str (get sp "Points" "2")) as [points|]; [|done].
  apply Z.leb_le in Hok. simpl.
  pose proof float_limit_pos.
  assert (exists step, (if (1 <? points)%Z
            then q ← Num.div_int (stop - start) (points - 1); Ok (Float q)
            else Ok (Int 0)) = Ok step /\
          (step = Int 0 \/ exists s, step = Float s)) as (step & -> & Hstep).
  { destruct (1 <? points)%Z eqn:E; [|by eauto].
    apply Z.ltb_lt in E. unfold Num.div_int.
    rewrite (proj2 (Z.eqb_neq _ _)) by lia.
    destruct (of_int_ok (points - 1)) as [d ->]; [lia|]. simpl. by eauto. }
  simpl.
  destruct (mapM_total (sweep_value start step) (range points)) as [vs ->].
  { apply Forall_forall. intros i Hi. by eapply sweep_value_total. }
  simpl.
  destruct (mapM_total (dep_block soln (get sp "Param" "sweep") points) node_map)
    as [deps ->].
  { eapply Forall_impl; [exact Hidx|]. intros [node idx] Hlt. simpl in *.
    unfold dep_block. destruct (lookup_lt_is_Some_2 soln idx Hlt) as [v ->].
    simpl. by eexists. }
  simpl. by eexists.
Qed.

Lemma index_nodes_bound l :
  Forall (fun e : string * nat => (e.2 < length l)%nat) (index_nodes l).
Proof.
  unfold index_nodes.
  apply Forall_forall. intros [n i] Hin.
  apply elem_of_zip_r in Hin. simpl in *. apply elem_of_seq in Hin. lia.
Qed.

Lemma solve_total alg text p :
  parse text = Ok p -> forallb component_ok (components p) = true ->
  exists node_map x, solve alg text = Ok (node_map, x) /\
    Forall (fun e : string * nat => (e.2 < length x)%nat) node_map.
Proof.
  intros Hp Hok. unfold solve. rewrite Hp. simpl.
  destruct (assemble_total p) as [[[node_map N] [G Iv]] Ha];
    [by eapply parse_closed|done|].
  rewrite Ha. simpl.
  destruct (forward_total (length Iv) (G, Iv)) as [[G' Iv'] ->]. simpl.
  destruct (backward_total alg (length Iv) G' Iv') as [x Hx]. rewrite Hx. simpl.
  exists node_map, x. split; [done|].
  apply assemble_shape in Ha as (-> & -> & Hle).
  apply backward_length in Hx.
  eapply Forall_impl; [apply index_nodes_bound|]. simpl. intros. lia.
Qed.



(** ** The shape of the encoder's output *)

Lemma app_assoc (s t u : string) : (s +:+ t) +:+ u = s +:+ t +:+ u.
Proof.
  induction s as [|c s IH]; [done|].
  change (String c ((s +:+ t) +:+ u) = String c (s +:+ t +:+ u)). by rewrite IH.
Qed.

Lemma app_nil_r (s : string) : s +:+ "" = s.
Proof.
  induction s as [|c s IH]; [done|].
  change (String c (s +:+ "") = String c s). by rewrite IH.
Qed.

Lemma app_cons c (s t : string) : String c s +:+ t = String c (s +:+ t).
Proof. done. Qed.

Lemma app_nil_l (s : string) : "" +:+ s = s.
Proof. done. Qed.

Lemma length_app (s t : string) :
  String.length (s +:+ t) = (String.length s + String.length t)%nat.
Proof.
  induction s as [|c s IH]; [done|].
  change (S (String.length (s +:+ t)) = S (String.length s + String.length t)).
  by rewrite IH.
Qed.

Lemma mapM_fmap {A B} (f : A -> result B) (g : A -> B) l :
  Forall (fun a => f a = Ok (g a)) l -> mapM f l = Ok (g <$> l).
Proof.
  induction 1 as [|a l Ha _ IH]; simpl; [done|]. by rewrite Ha, IH.
Qed.

Lemma of_int_to_float z :
  (Z.abs z < Num.float_limit)%Z -> Num.of_int z = Ok (Num.to_float z).
Proof. intros Hz%Z.ltb_lt. unfold Num.of_int. by rewrite Hz. Qed.

Lemma sweep_value_linspace start stop points i :
  (1 <= points <= Num.float_limit)%Z -> i ∈ range points ->
  sweep_value start
    (if (1 <? points)%Z then Float (step_of start stop points) else Int 0) i
  = Ok (start + Num.to_float i * step_of start stop points).
Proof.
  intros Hp Hi%elem_of_range. unfold sweep_value, step_of.
  destruct (1 <? points)%Z eqn:E.
  - rewrite of_int_to_float by lia. done.
  - apply Z.ltb_ge in E. assert (i = 0%Z) as -> by lia. done.
Qed.

Lemma dep_block_ok soln param points node idx :
  (idx < length soln)%nat ->
  dep_block soln param points (node, idx)
  = Ok (block "dep" node param (replicate (Z.to_nat points) (vget soln idx))).
Proof.
  intros Hlt. unfold dep_block, vget.
  destruct (lookup_lt_is_Some_2 soln idx Hlt) as [v ->]. simpl.
  unfold block. by rewrite fmap_replicate.
Qed.

Lemma encode_output node_map soln sp start stop points :
  read_sweep sp = Some (start, stop, points) ->
  (1 <= points <= Num.float_limit)%Z ->
  Forall (fun e : string * nat => (e.2 < length soln)%nat) node_map ->
  encode node_map soln sp =
    Ok (block "indep" (get sp "Param" "sweep") (Num.str_of_int points)
          (linspace start stop points)
        +:+ Py.concat ((fun e : string * nat =>
              block "dep" e.1 (get sp "Param" "sweep")
                (replicate (Z.to_nat points) (vget soln e.2))) <$> node_map)).
Proof.
  intros Hsp Hp Hidx. unfold read_sweep in Hsp. unfold encode.
  destruct (Num.float_of_str (get sp "Start" "0")) as [start'|]; [|done].
  destruct (Num.float_of_str (get sp "Stop" "10")) as [stop'|]; [|done].
  destruct (Num.int_of_str (get sp "Points" "2")) as [points'|]; [|done].
  simpl in Hsp. injection Hsp as -> -> ->. simpl.
  assert ((if (1 <? points)%Z
           then q ← Num.div_int (stop - start) (points - 1); Ok (Float q)
           else Ok (Int 0))
          = Ok (if (1 <? points)%Z then Float (step_of start stop points)
                else Int 0)) as ->.
  { unfold step_of. destruct (1 <? points)%Z eqn:E; [|done].
    apply Z.ltb_lt in E. unfold Num.div_int.
    rewrite (proj2 (Z.eqb_neq _ _)) by lia.
    by rewrite of_int_to_float by lia. }
  simpl.
  rewrite (mapM_fmap _ (fun i => start + Num.to_float i * step_of start stop points)).
  2:{ apply Forall_forall. intros i Hi. by apply sweep_value_linspace. }
  simpl.
  rewrite (mapM_fmap _ (fun e : string * nat =>
              block "dep" e.1 (get sp "Param" "sweep")
                (replicate (Z.to_nat points) (vget soln e.2)))).
  2:{ eapply Forall_impl; [exact Hidx|]. intros [node idx] Hlt.
      by apply dep_block_ok. }
  simpl. unfold block, linspace.
  by rewrite !app_assoc.
Qed.

(** [float] and [int] skip blanks only: a unit separator beside the digits
    is a [ValueError], a tab or a space is not; [int] takes at most 4300
    digits. *)
Lemma number_text_edges :
  Num.float_of_str (String "031" "5") = None /\
  Num.int_of_str (String "031" "5") = None /\
  Num.float_of_str (String "009" "5 ") = Some 5 /\
  Num.int_of_str (String "009" "5 ") = Some 5%Z /\
  Num.int_of_str (string_of_list_ascii (replicate 4299 "0"%char ++ ["7"%char]))
    = Some 7%Z /\
  Num.int_of_str (string_of_list_ascii (replicate 4300 "0"%char ++ ["7"%char]))
    = None.
Proof. vm_compute. repeat split; reflexivity. Qed.

(** A value with a unit separator before its digits: [float] raises. *)
Lemma separator_beside_value_raises alg :
  run alg (netlist ["Vdc:V1 n1 0 " +:+ kv "U" (String "031" "5")])
    = Raise ValueError /\
  run alg (netlist ["R:R1 n1 0 " +:+ kv "R" "1000";
                    ".DC " +:+ kv "Start" (String "031" "5")])
    = Raise ValueError.
Proof. destruct alg; vm_compute; split; reflexivity. Qed.

Lemma add_zero_same start : same_number (start + 0) start.
Proof.
  unfold same_number, PrimFloat.is_nan.
  rewrite !FloatAxioms.eqb_spec, FloatAxioms.add_spec, Prim2SF_zero.
  destruct (Prim2SF start) as [[]|[]| |[] m e]; simpl; auto;
    left; unfold SFeqb; simpl;
    by rewrite Z.compare_refl, Pos.compare_cont_refl.
Qed.

(** ** The claims *)

(** C1, as amended: for the 5 V source on [n1] with a 1 kOhm resistor to
    the otherwise unconnected [n2], [solve] returns [x] with 5.0 at the index
    of [n1] and 0.0 at the index of [n2]: after the first elimination step
    the pivot of the row of [n2] is 0, the solver exchanges no rows, and the
    unknown is left at 0. *)
Theorem source_and_resistor_solution alg :
  node_voltage alg source_and_resistor "n1" = Ok 5 /\
  node_voltage alg source_and_resistor "n2" = Ok 0 /\
  eliminated source_and_resistor
    = Ok ([[0x1.0624dd2f1a9fcp-10; -0x1.0624dd2f1a9fcp-10; 1];
           [0; 0; 1]; [0; 1; -1000]], [0; 0; 5]).
Proof. destruct alg; vm_compute; repeat split; reflexivity. Qed.

(** C1 does not hold as stated: the value at the index of [n2] is 0.0, which
    is not 5.0. *)
Lemma source_and_resistor_n2_is_not_5 :
  exists v, node_voltage Sequential source_and_resistor "n2" = Ok v /\
            node_voltage Compensated source_and_resistor "n2" = Ok v /\
            (v =? 5) = false.
Proof. exists 0. vm_compute. repeat split; reflexivity. Qed.

(** C2 does not hold as stated: a component line with one node token raises
    [IndexError], a resistance of zero raises [ZeroDivisionError], a value
    that is no number raises [ValueError], and a [Points] beyond the range of
    binary64 raises [OverflowError]. *)
Lemma run_raises :
  run Sequential (netlist ["R:R1 n1"]) = Raise IndexError /\
  run Sequential (netlist ["R:R1 n1 n2 " +:+ kv "R" "0"]) = Raise ZeroDivisionError /\
  run Sequential (netlist ["R:R1 n1 n2 " +:+ kv "R" "1k"]) = Raise ValueError /\
  run Sequential huge_sweep = Raise OverflowError.
Proof. vm_compute. repeat split; reflexivity. Qed.

(** C2, as amended: for every netlist text in which every [R] and [Vdc] line
    has at least two node tokens and a numeric value (not zero for [R]), and
    whose sweep parameters are numeric with [Points - 1] in the range of
    binary64, the pipeline (parse, index, assemble, solve, encode) raises
    nothing and produces a text; in particular no line that is not a
    component raises, and no singular system raises. *)
Theorem run_total alg text :
  well_formed text = true -> exists out, run alg text = Ok out.
Proof.
  unfold well_formed. intros [Hc Hs]%andb_true_iff.
  destruct (parse text) as [p|] eqn:Hp; [|done].
  destruct (solve_total alg text p Hp Hc) as (node_map & x & Hsolve & Hidx).
  unfold run. rewrite Hsolve. simpl. by apply encode_total.
Qed.

Lemma run_total_singular :
  well_formed singular_circuit = true /\
  assembled singular_circuit = Ok ([("n1", 0%nat)], 1%nat, ([[0; 0]; [0; 0]], [0; 5])) /\
  exists out, run Sequential singular_circuit = Ok out.
Proof.
  split; [vm_compute; reflexivity|]. split; [vm_compute; reflexivity|].
  apply (run_total Sequential singular_circuit). vm_compute. reflexivity.
Defined.

(** C3, at the failing input: two [Vdc] lines that read the same are equal
    dictionaries, [vsources.index] returns 0 for both, and both stamp row and
    column [N + 0]: [I[N]] is 10 and the row and column [N + 1] stay empty. *)
Theorem twin_sources_share_a_row :
  assembled twin_sources
  = Ok ([("n1", 0%nat)], 1%nat, ([[0; 2; 0]; [2; 0; 0]; [0; 0; 0]], [0; 10; 0])).
Proof. vm_compute. repeat split; reflexivity. Qed.

(** C5, at the failing input: with [.DC Points="5"] followed by
    [.DC Start="1"], [solve] keeps the parameters of the last line only,
    while [main] reads both lines into one dictionary, and the output has the
    5 points of the first line. *)
Theorem two_directives_are_merged alg :
  sim_cmd <$> of_result_option (parse two_directives)
    = Some (Some {[ "Start" := "1" ]}) /\
  sweep_params two_directives = {[ "Points" := "5"; "Start" := "1" ]} /\
  run alg two_directives
    = Ok (block "indep" "sweep" "5" [1; 3.25; 5.5; 7.75; 10]
          +:+ block "dep" "n1" "sweep" [0; 0; 0; 0; 0]).
Proof. destruct alg; vm_compute; repeat split; reflexivity. Qed.

(** C6: for every netlist whose components are of type [R] or [Vdc] with at
    least two node tokens each, the assembled matrix [G] has [N + M] rows of
    [N + M] entries and is symmetric. *)
Theorem assembled_matrix_symmetric text node_map N G Iv :
  resistors_and_sources text = true ->
  assembled text = Ok (node_map, N, (G, Iv)) ->
  square (N + length (voltage_sources text)) G /\ symmetric G.
Proof.
  intros _ H. unfold assembled in H. unfold voltage_sources, parsed_components.
  destruct (parse text) as [p|]; [|done]. simpl in H.
  by apply assemble_symmetric in H as (_ & ? & ?).
Qed.

Lemma assembled_matrix_symmetric_witness :
  let G := [[0x1.0624dd2f1a9fcp-10; -0x1.0624dd2f1a9fcp-10; 1];
            [-0x1.0624dd2f1a9fcp-10; 0x1.0624dd2f1a9fcp-10; 0];
            [1; 0; 0]] in
  square (2 + length (voltage_sources source_and_resistor)) G /\ symmetric G.
Proof.
  apply (assembled_matrix_symmetric source_and_resistor
           [("n1", 0%nat); ("n2", 1%nat)] 2 _ [0; 0; 5]);
    vm_compute; reflexivity.
Defined.

(** C7, at the failing input: with a 1 TOhm resistor to ground beside a 5 V
    source, the diagonal of row 0 after elimination is exactly the threshold
    [1e-12], so it is not below it and the row was used as a pivot; the
    solved value [(I[0] - sum) / G[0][0]] is 5, but back-substitution tests
    [abs(G[0][0]) > 1e-12] and leaves [x[0]] at 0. *)
Theorem threshold_pivot_is_dropped alg :
  exists G Iv x,
    eliminated threshold_pivot = Ok (G, Iv) /\
    solve alg threshold_pivot = Ok ([("n1", 0%nat)], x) /\
    mget G 0 0 = tol /\
    (abs (mget G 0 0) <? tol) = false /\
    (vget Iv 0 - py_sum alg [mget G 0 1 * vget x 1]) / mget G 0 0 = 5 /\
    vget x 0 = 0.
Proof.
  destruct alg; do 3 eexists;
    (split; [vm_compute; reflexivity|]);
    (split; [vm_compute; reflexivity|]);
    vm_compute; repeat split; reflexivity.
Qed.

(** * Further properties *)

Import Shape.

(** ** Further properties of [solve] *)

Lemma foldM_app {A S} (f : S -> A -> result S) l1 l2 s :
  foldM f (l1 ++ l2) s = foldM f l1 s ≫= foldM f l2.
Proof.
  revert s. induction l1 as [|a l1 IH]; intros s; simpl; [done|].
  destruct (f s a); simpl; [apply IH|done].
Qed.

Lemma vget_insert_eq (x : vector) i v :
  (i < length x)%nat -> vget (<[i := v]> x) i = v.
Proof. intros H. unfold vget. by rewrite list_lookup_insert_eq. Qed.

Lemma vget_insert_ne (x : vector) i j v :
  i <> j -> vget (<[i := v]> x) j = vget x j.
Proof. intros H. unfold vget. by rewrite list_lookup_insert_ne. Qed.

Lemma vget_zeros size i : vget (zeros size) i = 0.
Proof.
  unfold vget, zeros. destruct (replicate size 0 !! i) as [v|] eqn:E; [|done].
  by apply lookup_replicate in E as [-> _].
Qed.

Lemma row_sum_agree alg (G : matrix) (x x' : vector) i k m :
  (forall j, (k <= j)%nat -> vget x' j = vget x j) ->
  py_sum alg (map (fun j => mget G i j * vget x' j) (seq k m))
  = py_sum alg (map (fun j => mget G i j * vget x j) (seq k m)).
Proof.
  intros H. f_equal. apply map_ext_in. intros j Hj.
  apply in_seq in Hj. rewrite H; [done|lia].
Qed.


Lemma backward_rows alg size G Iv m : forall k x,
  (k + m = size)%nat ->
  foldM (backward_step alg size G Iv) (rev (seq k m)) (zeros size) = Ok x ->
  back_substituted alg size G Iv x k.
Proof.
  induction m as [|m IH]; intros k x Hk; simpl.
  - intros [= <-]. split; [apply length_replicate|].
    split; [intros; lia|]. intros. apply vget_zeros.
  - rewrite foldM_app. intros H.
    apply bind_Ok in H as (x1 & H1 & Hstep). simpl in Hstep.
    apply bind_Ok in Hstep as (x2 & Hstep & [= ->]).
    apply IH in H1 as (Hlen & Hdone & Hzero); [|lia].
    unfold backward_step in Hstep. fold (row_sum alg size G x1 k) in Hstep.
    assert (forall (y : vector) i, (k <= i)%nat ->
              (forall j, (k < j)%nat -> vget y j = vget x1 j) ->
              solved_value alg size G Iv y i = solved_value alg size G Iv x1 i)
      as Hsame.
    { intros y i Hi Hy. unfold solved_value, row_sum.
      rewrite (row_sum_agree alg G x1 y); [done|]. intros j Hj. apply Hy. lia. }
    destruct (tol <? abs (mget G k k)) eqn:Hg.
    + rewrite div_ok in Hstep by by apply above_tol_not_zero.
      simpl in Hstep. injection Hstep as <-.
      split; [by rewrite length_insert|]. split.
      * intros i Hi. rewrite Hsame; [|lia|].
        2:{ intros j Hj. apply vget_insert_ne. lia. }
        destruct (decide (i = k)) as [->|Hne].
        -- rewrite vget_insert_eq by lia. unfold solved_value. by rewrite Hg.
        -- rewrite vget_insert_ne by done. apply Hdone. lia.
      * intros i Hi. rewrite vget_insert_ne by lia. apply Hzero. lia.
    + injection Hstep as <-. split; [done|]. split.
      * intros i Hi. destruct (decide (i = k)) as [->|Hne].
        -- rewrite Hzero by lia. unfold solved_value. by rewrite Hg.
        -- apply Hdone. lia.
      * intros i Hi. apply Hzero. lia.
Qed.

(** X1: on a square matrix and a right-hand side of its size,
    back-substitution never raises, returns a vector of [size] entries,
    and leaves in every row [i] either [(I[i] - sum_val) / G[i][i]], with
    [sum_val] taken over the entries of the returned vector after [i], or
    [0] where the diagonal entry is not above the threshold. *)
Theorem backward_solves_each_row alg size G Iv :
  square size G -> length Iv = size ->
  exists x, backward alg size G Iv = Ok x /\ length x = size /\
    forall i, (i < size)%nat -> vget x i = solved_value alg size G Iv x i.
Proof.
  intros _ _. destruct (backward_total alg size G Iv) as [x Hx]. exists x.
  split; [done|].
  apply (backward_rows alg size G Iv size 0 x) in Hx as (Hl & Hs & _); [|lia].
  split; [done|]. intros i Hi. apply Hs. lia.
Qed.

Lemma backward_solves_each_row_witness :
  exists x, backward Sequential 2 [[2; 1]; [0; 5]] [6; 7] = Ok x /\
    length x = 2%nat /\
    forall i, (i < 2)%nat ->
      vget x i = solved_value Sequential 2 [[2; 1]; [0; 5]] [6; 7] x i.
Proof.
  apply (backward_solves_each_row Sequential 2 [[2; 1]; [0; 5]] [6; 7]).
  - split; [reflexivity|]. repeat constructor.
  - reflexivity.
Defined.

(** X3: on any square matrix and right-hand side of its size, the forward
    elimination and the back-substitution return: no division by zero,
    and the solution has [size] entries. *)
Theorem solver_never_raises alg size G Iv :
  square size G -> length Iv = size ->
  exists G' Iv' x,
    forward size (G, Iv) = Ok (G', Iv') /\
    backward alg size G' Iv' = Ok x /\ length x = size.
Proof.
  intros _ _. destruct (forward_total size (G, Iv)) as [[G' Iv'] Hf].
  destruct (backward_total alg size G' Iv') as [x Hx].
  exists G', Iv', x. split; [done|]. split; [done|]. by eapply backward_length.
Qed.

Lemma solver_never_raises_witness :
  exists G' Iv' x,
    forward 2 ([[0; 1]; [1; 0]], [6; 7]) = Ok (G', Iv') /\
    backward Sequential 2 G' Iv' = Ok x /\ length x = 2%nat.
Proof.
  apply (solver_never_raises Sequential 2 [[0; 1]; [1; 0]] [6; 7]).
  - split; [reflexivity|]. repeat constructor.
  - reflexivity.
Defined.

(** X4: the parsing loop of [solve] returns for every text, and every
    node of a recorded component is in the set of nodes. *)
Theorem parser_never_raises text :
  exists p, parse text = Ok p /\ nodes_closed p.
Proof.
  destruct (parse_total text) as [p Hp]. exists p. split; [done|].
  by eapply parse_closed.
Qed.

(** [vsources.index(c)] *)
Lemma list_index_first c l k :
  list_index c l = Some k ->
  l !! k = Some c /\ forall j, (j < k)%nat -> l !! j <> Some c.
Proof.
  revert k. induction l as [|c' l IH]; intros k; simpl; [done|].
  destruct (decide (c' = c)) as [->|Hne].
  - intros [= <-]. split; [done|]. intros; lia.
  - destruct (list_index c l) as [k'|] eqn:E; [|done]. intros [= <-].
    destruct (IH k' eq_refl) as [Hk Hj]. split; [done|].
    intros [|j] Hlt; simpl; [congruence|]. apply Hj. lia.
Qed.

(** The right-hand side of the node rows *)
Lemma stamp_node_rows node_map N vs G Iv c G' Iv' i :
  stamp node_map N vs (G, Iv) c = Ok (G', Iv') -> (i < N)%nat ->
  vget Iv' i = vget Iv i.
Proof.
  unfold stamp. intros H Hi.
  apply bind_Ok in H as (nis & _ & H).
  destruct (String.eqb (ctype c) "R").
  - apply bind_Ok in H as (val & _ & H).
    apply bind_Ok in H as (g & _ & H).
    apply bind_Ok in H as ([n1 n2] & _ & H). by injection H as <- <-.
  - destruct (String.eqb (ctype c) "Vdc"); [|by injection H as <- <-].
    apply bind_Ok in H as (k & _ & H).
    apply bind_Ok in H as (val & _ & H).
    apply bind_Ok in H as ([n1 n2] & _ & H).
    injection H as <- <-. apply vget_insert_ne. lia.
Qed.

Lemma assemble_lengths p node_map N G Iv :
  assemble p = Ok (node_map, N, (G, Iv)) ->
  N = length node_map /\
  length Iv = (N + length (filter (fun c => is_vdc c = true) (components p)))%nat /\
  forall i, (i < N)%nat -> vget Iv i = 0.
Proof.
  unfold assemble. intros H.
  apply bind_Ok in H as ([G0 I0] & Hfold & [= <- <- <- <-]).
  split; [done|].
  set (N := length (index_nodes (sorted_nodes (nodes p)))) in *.
  set (size := (N + _)%nat) in *.
  eapply (foldM_invariant
            (fun st => length st.2 = size /\
                       forall i, (i < N)%nat -> vget st.2 i = 0)) in Hfold.
  - exact Hfold.
  - intros [G1 I1] c [G2 I2] [Hl Hz] Hs. simpl in *. split.
    + apply stamp_length in Hs. congruence.
    + intros i Hi. erewrite stamp_node_rows by done. by apply Hz.
  - simpl. split; [apply length_replicate|]. intros. apply vget_zeros.
Qed.

(** X9: the assembled right-hand side has one entry per node and per
    voltage source, and the node rows are 0: only the rows of the voltage
    sources get a value. *)
Theorem node_rows_have_no_source text node_map N G Iv :
  assembled text = Ok (node_map, N, (G, Iv)) ->
  N = length node_map /\
  length Iv = (N + length (voltage_sources text))%nat /\
  forall i, (i < N)%nat -> vget Iv i = 0.
Proof.
  unfold assembled, voltage_sources, parsed_components.
  destruct (parse text) as [p|]; [|done]. simpl. apply assemble_lengths.
Qed.

Lemma node_rows_have_no_source_witness :
  2%nat = length [("n1", 0%nat); ("n2", 1%nat)] /\
  length [0; 0; 5] = (2 + length (voltage_sources source_and_resistor))%nat /\
  forall i, (i < 2)%nat -> vget [0; 0; 5] i = 0.
Proof.
  apply (node_rows_have_no_source source_and_resistor _ 2
           [[0x1.0624dd2f1a9fcp-10; -0x1.0624dd2f1a9fcp-10; 1];
            [-0x1.0624dd2f1a9fcp-10; 0x1.0624dd2f1a9fcp-10; 0];
            [1; 0; 0]]).
  vm_compute. reflexivity.
Defined.

Lemma length_index_nodes l : length (index_nodes l) = length l.
Proof. unfold index_nodes. rewrite length_zip, length_seq. lia. Qed.

Lemma solve_lengths alg text node_map x :
  solve alg text = Ok (node_map, x) ->
  length x = (length node_map + length (voltage_sources text))%nat /\
  Forall (fun e : string * nat => (e.2 < length node_map)%nat) node_map.
Proof.
  unfold solve, voltage_sources, parsed_components. intros H.
  apply bind_Ok in H as (p & Hp & H). rewrite Hp.
  apply bind_Ok in H as ([[nm N] [G Iv]] & Ha & H).
  apply bind_Ok in H as ([G' Iv'] & Hf & H).
  apply bind_Ok in H as (x' & Hb & [= <- <-]).
  apply backward_length in Hb. 
  pose proof (assemble_shape _ _ _ _ _ Ha) as (-> & _ & _).
  apply assemble_lengths in Ha as (-> & Hl & _).
  split; [simpl in *; congruence|].
  rewrite length_index_nodes. apply index_nodes_bound.
Qed.

(** X10: the solution returned by [solve] has one entry per node of the
    node map and per voltage source, and every index of the node map is
    below the number of nodes. *)
Theorem solution_has_one_entry_per_unknown alg text node_map x :
  solve alg text = Ok (node_map, x) ->
  length x = (length node_map + length (voltage_sources text))%nat /\
  Forall (fun e : string * nat => (e.2 < length node_map)%nat) node_map.
Proof. apply solve_lengths. Qed.

Lemma solution_has_one_entry_per_unknown_witness :
  exists nm x, solve Sequential source_and_resistor = Ok (nm, x) /\
    length x = (length nm + length (voltage_sources source_and_resistor))%nat /\
    Forall (fun e : string * nat => (e.2 < length nm)%nat) nm.
Proof.
  do 2 eexists. split; [vm_compute; reflexivity|].
  apply (solution_has_one_entry_per_unknown Sequential source_and_resistor).
  vm_compute. reflexivity.
Defined.

(** ** The rows of the voltage sources *)

(** What a stamp does to the right-hand side. *)
Lemma stamp_rhs node_map N vs G Iv c G' Iv' :
  stamp node_map N vs (G, Iv) c = Ok (G', Iv') ->
  if is_vdc c then
    exists k val, list_index c vs = Some k /\
      Num.float_of_str (get (cparams c) "U" "1") = Some val /\
      Iv' = <[(N + k)%nat := vget Iv (N + k) + val]> Iv
  else Iv' = Iv.
Proof.
  unfold stamp, is_vdc. intros H.
  apply bind_Ok in H as (nis & _ & H).
  destruct (String.eqb (ctype c) "R") eqn:ER.
  - apply String.eqb_eq in ER. rewrite ER. simpl.
    apply bind_Ok in H as (val & _ & H).
    apply bind_Ok in H as (g & _ & H).
    apply bind_Ok in H as ([n1 n2] & _ & H). by injection H as <- <-.
  - destruct (String.eqb (ctype c) "Vdc"); [|by injection H as <- <-].
    apply bind_Ok in H as (k & Hk & H).
    apply bind_Ok in H as (val & Hval & H).
    apply bind_Ok in H as ([n1 n2] & _ & H).
    injection H as <- <-. exists k, val.
    destruct (list_index c vs); [|done]. injection Hk as ->.
    destruct (Num.float_of_str _); [|done]. injection Hval as ->. done.
Qed.

Lemma stamps_source_row node_map N vs k c val l : forall G0 Iv0 G Iv,
  NoDup vs -> vs !! k = Some c -> is_vdc c = true ->
  Num.float_of_str (get (cparams c) "U" "1") = Some val ->
  NoDup (filter (fun c => is_vdc c = true) l) ->
  (N + k < length Iv0)%nat ->
  foldM (stamp node_map N vs) l (G0, Iv0) = Ok (G, Iv) ->
  vget Iv (N + k) = if decide (c ∈ l) then vget Iv0 (N + k) + val
                    else vget Iv0 (N + k).
Proof.
  induction l as [|c' l IH]; intros G0 Iv0 G Iv Hvs Hk Hc Hval Hnd Hlen.
  - intros [= <- <-]. case_decide as Hin; [by apply elem_of_nil in Hin|done].
  - cbn [foldM]. intros H. apply bind_Ok in H as ([G1 Iv1] & Hs & H).
    assert (N + k < length Iv1)%nat as Hl1.
    { apply stamp_length in Hs. lia. }
    apply stamp_rhs in Hs.
    destruct (is_vdc c') eqn:Ec'.
    + destruct Hs as (k' & val' & Hk' & Hval' & ->).
      rewrite filter_cons_True in Hnd by done.
      apply NoDup_cons in Hnd as [Hnot Hnd].
      apply list_index_first in Hk' as [Hk' _].
      rewrite (IH _ _ _ _ Hvs Hk Hc Hval Hnd Hl1 H).
      destruct (decide (c' = c)) as [->|Hne].
      * assert (k' = k) as -> by exact (NoDup_lookup vs k' k c Hvs Hk' Hk).
        assert (val' = val) as -> by congruence.
        assert (c ∉ l) as Hcl.
        { intros Hin. apply Hnot. by apply list_elem_of_filter. }
        rewrite (decide_False (P := c ∈ l)) by done.
        rewrite (decide_True (P := c ∈ c :: l)) by (by left).
        apply vget_insert_eq. lia.
      * assert (k' <> k) as Hkk by (intros ->; congruence).
        rewrite vget_insert_ne by lia.
        destruct (decide (c ∈ l)) as [Hin|Hin].
        -- rewrite (decide_True (P := c ∈ c' :: l)) by (by right). done.
        -- rewrite (decide_False (P := c ∈ c' :: l)); [done|].
           intros [?|?]%elem_of_cons; [congruence|done].
    + subst Iv1. rewrite filter_cons_False in Hnd by congruence.
      rewrite (IH _ _ _ _ Hvs Hk Hc Hval Hnd Hlen H).
      assert (c' <> c) as Hne by (intros ->; congruence).
      destruct (decide (c ∈ l)) as [Hin|Hin].
      * rewrite (decide_True (P := c ∈ c' :: l)) by (by right). done.
      * rewrite (decide_False (P := c ∈ c' :: l)); [done|].
        intros [?|?]%elem_of_cons; [congruence|done].
Qed.

(** X8: when no two voltage sources of a netlist are equal, every source
    has a row of its own: the row [N + k] of the right-hand side holds the
    voltage of the [k]-th source, added once to [0.0]. *)
Theorem distinct_sources_have_own_rows text node_map N G Iv k c val :
  assembled text = Ok (node_map, N, (G, Iv)) ->
  NoDup (voltage_sources text) ->
  voltage_sources text !! k = Some c ->
  Num.float_of_str (get (cparams c) "U" "1") = Some val ->
  Iv !! (N + k)%nat = Some (0 + val).
Proof.
  unfold assembled, voltage_sources, parsed_components.
  destruct (parse text) as [p|]; [|done]. simpl.
  intros Ha Hnd Hk Hval.
  pose proof (assemble_lengths _ _ _ _ _ Ha) as (_ & Hlen & _).
  assert (N + k < length Iv)%nat as Hin'.
  { rewrite Hlen. apply lookup_lt_Some in Hk. lia. }
  destruct (lookup_lt_is_Some_2 _ _ Hin') as [v Hv]. rewrite Hv. f_equal.
  assert (vget Iv (N + k) = v) as <- by (unfold vget; by rewrite Hv).
  clear Hlen Hin' Hv. unfold assemble in Ha.
  apply bind_Ok in Ha as ([G1 I1] & Hfold & [= <- <- <- <-]).
  pose proof (lookup_lt_Some _ _ _ Hk) as Hlt.
  pose proof (list_elem_of_lookup_2 _ _ _ Hk) as Hin.
  apply list_elem_of_filter in Hin as [Hc Hin].
  eapply stamps_source_row in Hfold; [|done..|].
  - rewrite Hfold. case_decide; [|done]. by rewrite vget_zeros.
  - unfold zeros. rewrite length_replicate. lia.
Qed.

Lemma distinct_sources_have_own_rows_witness :
  exists node_map N G Iv,
    assembled two_sources = Ok (node_map, N, (G, Iv)) /\
    Iv !! (N + 1)%nat = Some (0 + 3).
Proof.
  do 4 eexists. split; [vm_compute; reflexivity|].
  eapply (distinct_sources_have_own_rows two_sources _ _ _ _ 1 _ 3).
  - vm_compute. reflexivity.
  - apply (bool_decide_unpack _). vm_compute. reflexivity.
  - vm_compute. reflexivity.
  - vm_compute. reflexivity.
Defined.

(** ** The node index *)

Lemma elem_of_remove_first_iff x y l :
  NoDup l -> x ∈ remove_first y l <-> x ∈ l /\ x <> y.
Proof.
  induction 1 as [|z l Hz Hnd IH]; simpl.
  - rewrite elem_of_nil. tauto.
  - destruct (String.eqb_spec y z) as [->|Hne].
    + rewrite elem_of_cons. split; [|tauto].
      intros Hx. split; [tauto|]. by intros ->.
    + rewrite !elem_of_cons, IH. split; [|tauto].
      intros [->|[? ?]]; [split; [tauto|congruence]|tauto].
Qed.

Lemma Forall_remove_first (P : string -> Prop) y l :
  Forall P l -> Forall P (remove_first y l).
Proof.
  induction 1 as [|z l Hz Hl IH]; simpl; [constructor|].
  destruct (String.eqb y z); [done|by constructor].
Qed.

Lemma NoDup_remove_first y l : NoDup l -> NoDup (remove_first y l).
Proof.
  induction 1 as [|z l Hz Hnd IH]; simpl; [constructor|].
  destruct (String.eqb y z); [done|]. constructor; [|done].
  rewrite elem_of_remove_first_iff by done. tauto.
Qed.

Lemma StronglySorted_remove_first (R : relation string) y l :
  StronglySorted R l -> StronglySorted R (remove_first y l).
Proof.
  induction 1 as [|z l Hl IH Hz]; simpl; [constructor|].
  destruct (String.eqb y z); [done|]. constructor; [done|].
  by apply Forall_remove_first.
Qed.

Lemma lookup_node_position n l k i :
  NoDup l -> l !! i = Some n ->
  lookup_node n (zip l (seq k (length l))) = Some (k + i)%nat.
Proof.
  intros Hnd. revert k i. induction Hnd as [|a l Ha Hnd IH]; intros k i; [done|].
  simpl. destruct i as [|i]; simpl.
  - intros [= ->]. rewrite String.eqb_refl. f_equal. lia.
  - intros Hi. destruct (String.eqb_spec n a) as [->|Hne].
    + destruct Ha. by eapply list_elem_of_lookup_2.
    + rewrite (IH (S k) i Hi). f_equal. lia.
Qed.

Lemma node_index_map_aux (ns : gset string) :
  let l := sorted_nodes ns in
  (forall n, n ∈ l <-> n ∈ ns /\ n <> "0" /\ n <> "gnd") /\
  StronglySorted String.le l /\ NoDup l /\
  (index_nodes l).*1 = l /\
  (index_nodes l).*2 = seq 0 (length l) /\
  (forall i n, l !! i = Some n -> lookup_node n (index_nodes l) = Some i).
Proof.
  intros l. subst l. unfold sorted_nodes.
  set (s := merge_sort String.le (elements ns)).
  assert (NoDup s) as Hnd.
  { subst s. rewrite merge_sort_Permutation. apply NoDup_elements. }
  assert (forall n, n ∈ s <-> n ∈ ns) as Hin.
  { intros n. subst s. rewrite merge_sort_Permutation. apply elem_of_elements. }
  assert (StronglySorted String.le s) as Hs.
  { subst s. apply StronglySorted_merge_sort; apply _. }
  pose proof (NoDup_remove_first "0" s Hnd) as Hnd1.
  split; [|split; [|split; [|split; [|split]]]].
  - intros n. rewrite !elem_of_remove_first_iff, Hin by done. tauto.
  - by do 2 apply StronglySorted_remove_first.
  - by apply NoDup_remove_first.
  - unfold index_nodes. apply fst_zip. rewrite length_seq. lia.
  - unfold index_nodes. apply snd_zip. rewrite length_seq. lia.
  - intros i n Hi. unfold index_nodes.
    rewrite (lookup_node_position n _ 0 i); [done| |done].
    by apply NoDup_remove_first.
Qed.

(** X7: the node map holds the nodes other than [0] and [gnd], each once,
    in ascending order of their names, numbered from 0 without gap; the
    index of a node is its position. *)
Theorem node_index_map (ns : gset string) :
  let l := sorted_nodes ns in
  (forall n, n ∈ l <-> n ∈ ns /\ n <> "0" /\ n <> "gnd") /\
  StronglySorted String.le l /\ NoDup l /\
  (index_nodes l).*1 = l /\
  (index_nodes l).*2 = seq 0 (length l) /\
  (forall i n, l !! i = Some n -> lookup_node n (index_nodes l) = Some i).
Proof. apply node_index_map_aux. Qed.

(** ** Scanning with [finditer] *)

Section finditer.
Context {M : Type} (f : string -> option (M * string)).

Lemma finditer_go_skip a b :
  Re.finditer_go f (String.length a) (a +:+ b) = Re.finditer_go f 0 b.
Proof.
  induction a as [|c a IH]; [done|].
  rewrite app_cons. simpl. apply IH.
Qed.

Lemma finditer_match a b m :
  a <> EmptyString -> f (a +:+ b) = Some (m, b) ->
  Re.finditer f (a +:+ b) = m :: Re.finditer f b.
Proof.
  destruct a as [|c a]; [done|]. intros _. rewrite app_cons. intros Hm.
  unfold Re.finditer. simpl. rewrite Hm. f_equal.
  rewrite length_app.
  replace (S (String.length a + String.length b) - String.length b - 1)%nat
    with (String.length a) by lia.
  apply finditer_go_skip.
Qed.

Lemma finditer_step c s :
  f (String c s) = None -> Re.finditer f (String c s) = Re.finditer f s.
Proof. intros Hn. unfold Re.finditer. simpl. by rewrite Hn. Qed.

Lemma finditer_no_match a b :
  (forall a1 a2, a = a1 +:+ a2 -> a2 <> EmptyString -> f (a2 +:+ b) = None) ->
  Re.finditer f (a +:+ b) = Re.finditer f b.
Proof.
  induction a as [|c a IH]; intros Hf; [done|].
  rewrite app_cons, finditer_step.
  - apply IH. intros a1 a2 -> Hne. by apply (Hf (String c a1)).
  - rewrite <- app_cons. by apply (Hf EmptyString).
Qed.
End finditer.

(** *** Runs of characters *)


Lemma all_chars_nil p : all_chars p EmptyString.
Proof. by intros c []. Qed.

Lemma all_chars_cons p c s :
  all_chars p (String c s) <-> p c = true /\ all_chars p s.
Proof.
  unfold all_chars. simpl. split.
  - intros H. split; [by apply H; left|]. intros x Hx. apply H. by right.
  - intros [Hc Hs] x [<-|Hx]; auto.
Qed.

Lemma all_chars_app p s t :
  all_chars p (s +:+ t) <-> all_chars p s /\ all_chars p t.
Proof.
  induction s as [|c s IH].
  - rewrite app_nil_l. split; [intros; split; [apply all_chars_nil|done]|tauto].
  - rewrite app_cons, !all_chars_cons, IH. tauto.
Qed.

Lemma span_spec p s k r :
  Py.span p s = (k, r) ->
  s = k +:+ r /\ all_chars p k /\
  (r = EmptyString \/ exists c r', r = String c r' /\ p c = false).
Proof.
  revert k r. induction s as [|c s IH]; intros k r; simpl.
  - intros [= <- <-]. split; [done|]. split; [apply all_chars_nil|by left].
  - destruct (p c) eqn:Hc.
    + destruct (Py.span p s) as [a b] eqn:E. intros [= <- <-].
      destruct (IH a b eq_refl) as (-> & Ha & Hb).
      split; [done|]. split; [by apply all_chars_cons|done].
    + intros [= <- <-]. split; [done|]. split; [apply all_chars_nil|].
      right. by eauto.
Qed.

Lemma span_app p a c r :
  all_chars p a -> p c = false -> Py.span p (a +:+ String c r) = (a, String c r).
Proof.
  induction a as [|x a IH]; intros Ha Hc.
  - rewrite app_nil_l. simpl. by rewrite Hc.
  - apply all_chars_cons in Ha as [Hx Ha]. rewrite app_cons. simpl.
    by rewrite Hx, IH.
Qed.

Lemma span_all p a : all_chars p a -> Py.span p a = (a, EmptyString).
Proof.
  induction a as [|x a IH]; intros Ha; [done|].
  apply all_chars_cons in Ha as [Hx Ha]. simpl. by rewrite Hx, IH.
Qed.

(** Cutting at the first character that fails [p] is unique. *)
Lemma first_stop_unique p a a' c c' r r' :
  all_chars p a -> all_chars p a' -> p c = false -> p c' = false ->
  a +:+ String c r = a' +:+ String c' r' -> a = a' /\ c = c' /\ r = r'.
Proof.
  revert a'. induction a as [|x a IH]; intros [|x' a'] Ha Ha' Hc Hc'.
  - rewrite !app_nil_l. by intros [= -> ->].
  - rewrite app_nil_l, app_cons. intros [= -> _].
    apply all_chars_cons in Ha' as [? _]. congruence.
  - rewrite app_nil_l, app_cons. intros [= -> _].
    apply all_chars_cons in Ha as [? _]. congruence.
  - rewrite !app_cons. intros [= -> H].
    apply all_chars_cons in Ha as [_ Ha]. apply all_chars_cons in Ha' as [_ Ha'].
    destruct (IH a' Ha Ha' Hc Hc' H) as (-> & -> & ->). done.
Qed.

(** *** The parameter pattern *)

Lemma is_word_not_quote c : Py.is_word c = true -> Re.not_quote c = true.
Proof.
  unfold Re.not_quote. destruct (Ascii.eqb_spec c Py.quote) as [->|]; [|done].
  by vm_compute.
Qed.

Lemma not_quote_quote : Re.not_quote Py.quote = false.
Proof. reflexivity. Qed.

(** What a match of the parameter pattern looks like: a word, [=], and a
    non-empty run without quote between two quotes. *)
Lemma match_param_Some s k v r :
  Re.match_param s = Some ((k, v), r) ->
  s = k +:+ String "=" (String Py.quote (v +:+ String Py.quote r)) /\
  k <> EmptyString /\ v <> EmptyString /\
  all_chars Py.is_word k /\ all_chars Re.not_quote v.
Proof.
  unfold Re.match_param.
  destruct (Py.span Py.is_word s) as [k' r1] eqn:Ek.
  destruct (span_spec _ _ _ _ Ek) as (-> & Hk & _).
  destruct k' as [|kc k'']; [done|]. simpl.
  destruct r1 as [|e r1]; [done|].
  destruct (Ascii.eqb_spec e "="%char) as [->|Hne].
  2:{ destruct e as [[] [] [] [] [] [] [] []]; done. }
  destruct r1 as [|q r2]; [done|].
  destruct (Ascii.eqb_spec q Py.quote) as [->|]; [|done].
  destruct (Py.span Re.not_quote r2) as [v' r3] eqn:Ev.
  destruct (span_spec _ _ _ _ Ev) as (-> & Hv & _).
  destruct v' as [|vc v'']; [done|]. simpl.
  destruct r3 as [|q' r4]; [done|].
  destruct (Ascii.eqb_spec q' Py.quote) as [->|]; [|done].
  intros [= <- <- <-]. done.
Qed.

Lemma all_chars_contains_false c s :
  Py.contains c s = false <-> all_chars (fun x => negb (Ascii.eqb x c)) s.
Proof.
  induction s as [|x s IH]; simpl.
  - split; [intros; apply all_chars_nil|done].
  - rewrite all_chars_cons, <- IH, orb_false_iff, negb_true_iff, Ascii.eqb_sym.
    tauto.
Qed.

Lemma match_param_empty_value a tail :
  all_chars Re.not_quote a ->
  Re.match_param (a +:+ empty_value +:+ tail) = None.
Proof.
  intros Ha.
  destruct (Re.match_param (a +:+ empty_value +:+ tail)) as [[[k v] r]|] eqn:E;
    [|done].
  apply match_param_Some in E as (Heq & Hk & Hv & Hwk & Hnv). exfalso.
  unfold empty_value in Heq.
  change (a +:+ String "=" (String Py.quote (String Py.quote EmptyString)) +:+ tail)
    with (a +:+ String "=" (String Py.quote (String Py.quote tail))) in Heq.
  assert ((a +:+ String "=" EmptyString) +:+ String Py.quote (String Py.quote tail)
          = (k +:+ String "=" EmptyString) +:+ String Py.quote (v +:+ String Py.quote r))
    as Heq'.
  { by rewrite !app_assoc. }
  apply (first_stop_unique Re.not_quote) in Heq' as (_ & _ & Hv').
  - destruct v as [|vc v]; [done|]. rewrite app_cons in Hv'.
    injection Hv' as <- _. apply all_chars_cons in Hnv as [Hq _].
    by rewrite not_quote_quote in Hq.
  - apply all_chars_app. split; [done|]. apply all_chars_cons.
    split; [done|apply all_chars_nil].
  - apply all_chars_app. split.
    + intros c Hc. by apply is_word_not_quote, Hwk.
    + apply all_chars_cons. split; [done|apply all_chars_nil].
  - apply not_quote_quote.
  - apply not_quote_quote.
Qed.

(** X5: the node list of a component line ends before the first token
    with an equals sign; tokens after it are no nodes, whatever they are. *)
Theorem node_list_ends_at_first_parameter ps1 t ps2 :
  Forall (fun p => Py.contains "=" p = false) ps1 ->
  Py.contains "=" t = true ->
  node_tokens (ps1 ++ t :: ps2) = ps1.
Proof.
  intros H Ht. induction H as [|p ps1 Hp _ IH]; simpl.
  - by rewrite Ht.
  - by rewrite Hp, IH.
Qed.

Lemma node_list_ends_at_first_parameter_witness :
  node_tokens (["n1"; "n2"] ++ ("R" +:+ empty_value) :: ["n3"]) = ["n1"; "n2"].
Proof.
  apply (node_list_ends_at_first_parameter ["n1"; "n2"] ("R" +:+ empty_value) ["n3"]).
  - repeat constructor.
  - reflexivity.
Defined.

(** *** Dictionaries filled in a loop *)

Lemma foldl_insert_lookup {B V} (key : B -> string) (val : B -> V)
    (l : list B) (init : gmap string V) (n : string) :
  foldl (fun m b => <[key b := val b]> m) init l !! n
  = match last (filter (fun b => key b = n) l) with
    | Some b => Some (val b)
    | None => init !! n
    end.
Proof.
  induction l as [|b l IH] using rev_ind; [done|].
  rewrite foldl_app, filter_app. simpl.
  destruct (decide (key b = n)) as [<-|Hne].
  - rewrite filter_cons_True, filter_nil, last_snoc by done.
    by rewrite lookup_insert_eq.
  - rewrite filter_cons_False by done. rewrite filter_nil, List.app_nil_r.
    by rewrite lookup_insert_ne.
Qed.

Lemma filter_key_absent {V} (l : list (string * V)) key :
  key ∉ l.*1 -> filter (fun kv : string * V => kv.1 = key) l = [].
Proof.
  induction l as [|e l IH]; [done|]. rewrite fmap_cons, not_elem_of_cons.
  intros [Hne Hl]. rewrite filter_cons_False by (simpl; congruence). auto.
Qed.

(** X6: a parameter written with nothing between its quotes, after text
    without a double quote, is no match of the parameter pattern: the scan
    goes on behind it as if it were not there, the parameters of the line
    are those of the rest, and a key that the rest does not give is left as
    it was before the line. *)
Theorem empty_value_is_not_captured pre tail init :
  Py.contains Py.quote pre = false ->
  Re.finditer Re.match_param (pre +:+ empty_value +:+ tail)
    = Re.finditer Re.match_param tail /\
  line_params (pre +:+ empty_value +:+ tail) init = line_params tail init /\
  forall key, key ∉ (Re.finditer Re.match_param tail).*1 ->
    line_params (pre +:+ empty_value +:+ tail) init !! key = init !! key.
Proof.
  intros Hpre.
  assert (Re.finditer Re.match_param (pre +:+ empty_value +:+ tail)
          = Re.finditer Re.match_param tail) as Hf.
  { rewrite finditer_no_match.
    - unfold empty_value.
      change (String "=" (String Py.quote (String Py.quote EmptyString)) +:+ tail)
        with (String "=" (String Py.quote (String Py.quote tail))).
      by rewrite !finditer_step.
    - intros a1 a2 -> _. apply match_param_empty_value.
      apply all_chars_contains_false in Hpre.
      apply all_chars_app in Hpre as [_ Ha2].
      intros c Hc. unfold Re.not_quote. by apply Ha2. }
  split; [done|]. split; [unfold line_params; by rewrite Hf|].
  intros key Hkey. unfold line_params. rewrite Hf.
  rewrite (foldl_insert_lookup fst snd).
  by rewrite filter_key_absent.
Qed.

Lemma empty_value_is_not_captured_witness :
  Re.finditer Re.match_param
    ("R:R1 n1 n2 R" +:+ empty_value +:+ " " +:+ kv "T" "26")
    = Re.finditer Re.match_param (" " +:+ kv "T" "26") /\
  get (line_params ("R:R1 n1 n2 R" +:+ empty_value +:+ " " +:+ kv "T" "26") ∅)
    "R" "1000" = "1000".
Proof.
  destruct (empty_value_is_not_captured "R:R1 n1 n2 R" (" " +:+ kv "T" "26") ∅
              eq_refl) as (H1 & _ & H3).
  split; [exact H1|]. unfold get. rewrite H3; [reflexivity|].
  assert ((Re.finditer Re.match_param (" " +:+ kv "T" "26")).*1 = ["T"]) as ->
    by (vm_compute; reflexivity).
  apply not_elem_of_cons. split; [discriminate|apply not_elem_of_nil].
Defined.

Lemma line_params_foldl line init :
  line_params line init
  = foldl (fun m kv => <[kv.1 := kv.2]> m) init (Re.finditer Re.match_param line).
Proof. done. Qed.

Lemma sweep_params_pairs lines init :
  foldl (fun sp line =>
           if Py.startswith ".DC" (Py.strip line)
           then line_params line sp else sp) init lines
  = foldl (fun m kv => <[kv.1 := kv.2]> m) init
      (mjoin (Re.finditer Re.match_param <$>
                filter (fun l => Py.startswith ".DC" (Py.strip l) = true) lines)).
Proof.
  revert init. induction lines as [|l lines IH]; intros init; [done|].
  simpl. destruct (Py.startswith ".DC" (Py.strip l)) eqn:E.
  - rewrite filter_cons_True by done. simpl. rewrite foldl_app. apply IH.
  - rewrite filter_cons_False by congruence. apply IH.
Qed.

(** X11: the sweep parameters of [main] are collected over all lines that
    start with [.DC] after stripping: the value of a key is that of its last
    occurrence on such lines, in reading order. *)
Theorem sweep_parameter_is_last_written text key :
  sweep_params text !! key
  = snd <$> last (filter (fun kv => kv.1 = key) (dc_pairs text)).
Proof.
  unfold sweep_params, dc_pairs. rewrite sweep_params_pairs.
  rewrite (foldl_insert_lookup fst snd). rewrite lookup_empty.
  by destruct (last _).
Qed.

(** ** The decoder *)

Lemma match_block_head c s : c <> "<"%char -> Re.match_block (String c s) = None.
Proof. intros Hc. destruct c as [[] [] [] [] [] [] [] []]; done. Qed.

Lemma contains_app c a b :
  Py.contains c (a +:+ b) = Py.contains c a || Py.contains c b.
Proof.
  induction a as [|x a IH]; [done|]. rewrite app_cons. simpl.
  by rewrite IH, orb_assoc.
Qed.

Lemma finditer_block_skip a b :
  Py.contains "<" a = false ->
  Re.finditer Re.match_block (a +:+ b) = Re.finditer Re.match_block b.
Proof.
  intros Ha. apply finditer_no_match. intros a1 a2 -> Hne.
  rewrite contains_app in Ha. apply orb_false_iff in Ha as [_ Ha].
  destruct a2 as [|c a2]; [done|]. rewrite app_cons.
  apply match_block_head. intros ->. by simpl in Ha.
Qed.

(** X14: the decoder's dictionary has, under a name, the values of the last
    matched block of that name, and no entry for a name no block has. *)
Theorem decoded_value_is_last_block content n :
  decode content !! n
  = (fun b => Values (block_values (Re.data b)))
      <$> last (filter (fun b => Re.name b = n)
                       (Re.finditer Re.match_block content)).
Proof.
  unfold decode.
  rewrite (foldl_insert_lookup Re.name (fun b => Values (block_values (Re.data b)))).
  rewrite lookup_empty. by destruct (last _).
Qed.

(** X15: a result file without any opening angle bracket decodes to the
    empty dictionary, not to an error. *)
Theorem no_tag_no_entry content :
  Py.contains "<" content = false -> parse_qucs_dat (Some content) = ∅.
Proof.
  intros H. simpl. unfold decode.
  rewrite <- (app_nil_r content), finditer_block_skip by done. done.
Qed.

Lemma no_tag_no_entry_witness :
  parse_qucs_dat (Some "5.000000e+00 syntax error") = ∅.
Proof. apply (no_tag_no_entry "5.000000e+00 syntax error"). reflexivity. Defined.

(** ** Blank-separated tokens *)

Lemma split_lstrip s : Py.split (Py.lstrip s) = Py.split s.
Proof.
  induction s as [|c s IH]; [done|]. simpl.
  destruct (Py.is_space c) eqn:E; [done|]. simpl. by rewrite E.
Qed.

Lemma rstrip_nil_split s : Py.rstrip s = EmptyString -> Py.split s = [].
Proof.
  induction s as [|c s IH]; [done|]. simpl.
  destruct (Py.rstrip s) as [|a r] eqn:E; [|done].
  destruct (Py.is_space c); [intros _; by apply IH|done].
Qed.

Lemma split_rstrip s : Py.split (Py.rstrip s) = Py.split s.
Proof.
  induction s as [|c s IH]; [done|].
  change (Py.rstrip (String c s)) with
    (match Py.rstrip s with
     | EmptyString => if Py.is_space c then EmptyString else String c EmptyString
     | r => String c r
     end).
  destruct (Py.rstrip s) as [|a r] eqn:E.
  - pose proof (rstrip_nil_split s E) as Hs.
    simpl. destruct (Py.is_space c) eqn:Ec; [done|]. simpl. rewrite Ec.
    destruct s as [|c' s']; [done|]. rewrite Hs.
    by destruct (Py.is_space c').
  - destruct s as [|c' s']; [done|].
    pose proof (rstrip_cons_head _ _ _ _ E) as ->.
    change (Py.split (String c (String a r))) with
      (if Py.is_space c then Py.split (String a r)
       else if Py.is_space a then String c EmptyString :: Py.split (String a r)
       else match Py.split (String a r) with
            | t :: ts => String c t :: ts
            | [] => [String c EmptyString]
            end).
    change (Py.split (String c (String a s'))) with
      (if Py.is_space c then Py.split (String a s')
       else if Py.is_space a then String c EmptyString :: Py.split (String a s')
       else match Py.split (String a s') with
            | t :: ts => String c t :: ts
            | [] => [String c EmptyString]
            end).
    by rewrite IH.
Qed.

Lemma split_strip s : Py.split (Py.strip s) = Py.split s.
Proof. unfold Py.strip. by rewrite split_rstrip, split_lstrip. Qed.

Lemma split_space c s : Py.is_space c = true -> Py.split (String c s) = Py.split s.
Proof. intros H. simpl. by rewrite H. Qed.

Lemma split_token t c rest :
  token t -> Py.is_space c = true ->
  Py.split (t +:+ String c rest) = t :: Py.split rest.
Proof.
  intros [Hne Ht] Hc. induction t as [|x t IH]; [done|].
  apply all_chars_cons in Ht as [Hx Ht]. apply negb_true_iff in Hx.
  rewrite app_cons. destruct t as [|y t].
  - rewrite app_nil_l. simpl. by rewrite Hx, Hc.
  - specialize (IH ltac:(done) Ht).
    pose proof Ht as Hy. apply all_chars_cons in Hy as [Hy _].
    apply negb_true_iff in Hy.
    rewrite app_cons in *.
    change (Py.split (String x (String y (t +:+ String c rest)))) with
      (if Py.is_space x then Py.split (String y (t +:+ String c rest))
       else if Py.is_space y
            then String x EmptyString :: Py.split (String y (t +:+ String c rest))
       else match Py.split (String y (t +:+ String c rest)) with
            | t :: ts => String x t :: ts
            | [] => [String x EmptyString]
            end).
    by rewrite Hx, Hy, IH.
Qed.

Lemma concat_cons s l : Py.concat (s :: l) = s +:+ Py.concat l.
Proof. done. Qed.

Lemma split_lines toks :
  Forall token toks ->
  Py.split (Py.concat ((fun t => t +:+ nl) <$> toks)) = toks.
Proof.
  induction 1 as [|t toks Ht _ IH]; [done|].
  rewrite fmap_cons, concat_cons, app_assoc.
  unfold nl at 1. rewrite app_cons, app_nil_l.
  rewrite split_token by done. by rewrite IH.
Qed.

(** The tokens of a line are tokens. *)
Lemma split_tokens s : Forall token (Py.split s).
Proof.
  induction s as [|c s IH]; [constructor|].
  assert (forall x, Py.is_space x = false -> token (String x EmptyString)) as H1.
  { intros x Hx. split; [done|]. apply all_chars_cons.
    split; [by rewrite Hx|apply all_chars_nil]. }
  assert (forall x t, Py.is_space x = false -> token t -> token (String x t)) as H2.
  { intros x t Hx [_ Ht]. split; [done|]. apply all_chars_cons.
    split; [by rewrite Hx|done]. }
  simpl. destruct (Py.is_space c) eqn:Ec; [done|].
  destruct s as [|c' s']; [by constructor; [apply H1|constructor]|].
  destruct (Py.is_space c'); [by constructor; [apply H1|]|].
  destruct (Py.split (String c' s')) as [|t ts];
    [by constructor; [apply H1|constructor]|].
  apply Forall_cons in IH as [Ht Hts]. constructor; [by apply H2|done].
Qed.

Lemma strip_token t : token t -> Py.strip t = t.
Proof.
  intros [Hne Ht]. unfold Py.strip.
  assert (Py.lstrip t = t) as ->.
  { destruct t as [|c t]; [done|]. apply all_chars_cons in Ht as [Hc _].
    apply negb_true_iff in Hc. simpl. by rewrite Hc. }
  clear Hne. induction t as [|c t IH]; [done|].
  apply all_chars_cons in Ht as [Hc Ht]. apply negb_true_iff in Hc.
  simpl. rewrite (IH Ht), Hc. by destruct t.
Qed.

(** ** Decimal text *)

Lemma is_digit_digit_char d : Py.is_digit (Num.digit_char d) = true.
Proof.
  unfold Num.digit_char, Py.is_digit.
  assert (0 <= d mod 10 < 10)%Z as Hd by (apply Z.mod_pos_bound; lia).
  rewrite nat_ascii_embedding by lia.
  apply andb_true_iff. split; apply Nat.leb_le; lia.
Qed.

Lemma digits_fixed_digits k n : all_chars Py.is_digit (Num.digits_fixed k n).
Proof.
  induction k as [|k IH]; simpl; apply all_chars_cons;
    (split; [apply is_digit_digit_char|]); [apply all_chars_nil|done].
Qed.

Lemma digits_fixed_nonempty k n : Num.digits_fixed k n <> EmptyString.
Proof. by destruct k. Qed.


Lemma all_chars_impl (p q : ascii -> bool) s :
  (forall c, p c = true -> q c = true) -> all_chars p s -> all_chars q s.
Proof. intros H Hs c Hc. auto. Qed.

Lemma digit_facts c :
  Py.is_digit c = true ->
  Py.is_space c = false /\ Py.is_word c = true /\ number_char c = true /\
  Ascii.eqb c "_" = false /\ Ascii.eqb c "<" = false /\
  Num.eat_sign (String c EmptyString) = (false, String c EmptyString) /\
  Num.lower c = c /\ Ascii.eqb c "i" = false /\ Ascii.eqb c "n" = false.
Proof.
  destruct c as [[] [] [] [] [] [] [] []]; vm_compute; intros H;
    try discriminate H; repeat split; reflexivity.
Qed.

Lemma number_char_facts c :
  number_char c = true ->
  Py.is_space c = false /\ Ascii.eqb c "<" = false /\ Ascii.eqb c "_" = false.
Proof.
  destruct c as [[] [] [] [] [] [] [] []]; vm_compute; intros H;
    try discriminate H; repeat split; reflexivity.
Qed.

Lemma drop_underscores_none s prev :
  all_chars (fun c => negb (Ascii.eqb c "_")) s ->
  Num.drop_underscores prev s = Some s.
Proof.
  revert prev. induction s as [|c s IH]; intros prev Hs; [done|].
  apply all_chars_cons in Hs as [Hc Hs]. apply negb_true_iff in Hc.
  simpl. rewrite Hc, IH by done. done.
Qed.

Lemma eat_sign_digit c s :
  Py.is_digit c = true -> Num.eat_sign (String c s) = (false, String c s).
Proof.
  intros H. destruct c as [[] [] [] [] [] [] [] []]; vm_compute in H;
    try discriminate H; reflexivity.
Qed.

Lemma not_special_digit c s w :
  Py.is_digit c = true ->
  (w = "inf" \/ w = "infinity" \/ w = "nan") ->
  String.eqb (Num.lowercase (String c s)) w = false.
Proof.
  intros H Hw. simpl.
  destruct (digit_facts c H) as (_ & _ & _ & _ & _ & _ & -> & Hi & Hn).
  destruct Hw as [->|[->| ->]]; simpl; by rewrite ?Hi, ?Hn.
Qed.

Lemma sci_literal_chars neg ip fp eneg ed :
  all_chars Py.is_digit ip -> all_chars Py.is_digit fp ->
  all_chars Py.is_digit ed ->
  all_chars number_char (sci_literal neg ip fp eneg ed).
Proof.
  intros Dip Dfp Ded. unfold sci_literal.
  assert (forall s, all_chars Py.is_digit s -> all_chars number_char s) as Hd.
  { intros s. apply all_chars_impl. intros c Hc. by apply digit_facts. }
  apply all_chars_app; split.
  { destruct neg; [|apply all_chars_nil].
    apply all_chars_cons; split; [done|apply all_chars_nil]. }
  apply all_chars_app; split; [auto|].
  apply all_chars_app; split.
  { apply all_chars_cons; split; [done|auto]. }
  apply all_chars_cons; split; [done|].
  apply all_chars_cons; split; [by destruct eneg|auto].
Qed.

Lemma strip_number s : all_chars number_char s -> Py.strip s = s.
Proof.
  intros Hs. destruct s as [|c s]; [done|]. apply strip_token.
  split; [done|]. eapply all_chars_impl; [|exact Hs].
  intros x Hx. apply number_char_facts in Hx as (-> & _). done.
Qed.

Lemma blank_is_space c : Num.is_blank c = true -> Py.is_space c = true.
Proof.
  destruct c as [[] [] [] [] [] [] [] []]; vm_compute; intros H;
    try discriminate H; reflexivity.
Qed.

Lemma trim_no_blank s :
  all_chars (fun c => negb (Num.is_blank c)) s -> Num.trim s = s.
Proof.
  intros Hs. unfold Num.trim.
  assert (Num.skip_left s = s) as ->.
  { destruct s as [|c s]; [done|]. apply all_chars_cons in Hs as [Hc _].
    apply negb_true_iff in Hc. simpl. by rewrite Hc. }
  induction s as [|c s IH]; [done|].
  apply all_chars_cons in Hs as [Hc Hs]. apply negb_true_iff in Hc.
  simpl. rewrite (IH Hs), Hc. by destruct s.
Qed.

Lemma trim_number s : all_chars number_char s -> Num.trim s = s.
Proof.
  intros Hs. apply trim_no_blank. eapply all_chars_impl; [|exact Hs].
  intros x Hx. apply number_char_facts in Hx as (Hsp & _).
  destruct (Num.is_blank x) eqn:E; [|done].
  apply blank_is_space in E. congruence.
Qed.

Lemma float_of_str_sci neg ip fp eneg ed :
  ip <> EmptyString -> ed <> EmptyString ->
  all_chars Py.is_digit ip -> all_chars Py.is_digit fp ->
  all_chars Py.is_digit ed ->
  Num.float_of_str (sci_literal neg ip fp eneg ed)
  = Some (Num.of_decimal neg (Num.digits_val 0 (ip +:+ fp))
            ((if eneg then - Num.digits_val 0 ed else Num.digits_val 0 ed)
             - Z.of_nat (String.length fp))).
Proof.
  intros Hip Hed Dip Dfp Ded. unfold Num.float_of_str.
  pose proof (sci_literal_chars neg ip fp eneg ed Dip Dfp Ded) as Hch.
  rewrite trim_number by done.
  rewrite drop_underscores_none.
  2:{ eapply all_chars_impl; [|exact Hch]. intros x Hx.
      apply number_char_facts in Hx as (_ & _ & ->). done. }
  cbn [mbind option_bind]. unfold sci_literal.
  destruct ip as [|c ip]; [done|].
  pose proof Dip as Hc. apply all_chars_cons in Hc as [Hc _].
  assert (Num.eat_sign ((if neg then "-" else "") +:+ String c ip +:+ String "." fp
            +:+ String "e" (String (if eneg then "-" else "+")%char ed))
          = (neg, String c (ip +:+ String "." fp
            +:+ String "e" (String (if eneg then "-" else "+")%char ed)))) as ->.
  { destruct neg; [done|]. rewrite app_nil_l, app_cons.
    by apply eat_sign_digit. }
  cbv beta iota zeta.
  rewrite !not_special_digit by auto. cbn [orb].
  rewrite <- app_cons.
  change (String "." fp +:+ ?x) with (String "." (fp +:+ x)).
  rewrite (span_app Py.is_digit (String c ip) "." _ Dip eq_refl).
  cbv beta iota zeta.
  rewrite (span_app Py.is_digit fp "e" _ Dfp eq_refl).
  cbv beta iota zeta.
  change (Py.is_empty (String c ip)) with false. cbn [andb].
  change (Ascii.eqb (Num.lower "e") "e") with true. cbv beta iota zeta.
  assert (Num.eat_sign (String (if eneg then "-" else "+")%char ed) = (eneg, ed))
    as -> by by destruct eneg.
  rewrite (span_all Py.is_digit ed Ded).
  destruct ed as [|e ed]; [done|]. done.
Qed.

(** ** The text of a number *)

Lemma sci7_literal (neg : bool) n d :
  exists ip fp eneg ed,
    ((if neg then "-" else "") : string) +:+ Num.sci7 n d
      = sci_literal neg ip fp eneg ed /\
    ip <> EmptyString /\ ed <> EmptyString /\
    all_chars Py.is_digit ip /\ all_chars Py.is_digit fp /\
    all_chars Py.is_digit ed.
Proof.
  unfold Num.sci7.
  set (k0 := Num.exp10 n d). set (m0 := Num.scaled7 n d k0).
  destruct (if (10000000 <=? m0)%Z then ((m0 / 10)%Z, (k0 + 1)%Z) else (m0, k0))
    as [m k].
  exists (String (Num.digit_char (m / 1000000)) EmptyString),
    (Num.digits_fixed 5 m), (k <? 0)%Z,
    (if (Z.abs k <? 100)%Z then Num.digits_fixed 1 (Z.abs k)
     else Num.digits_fixed 2 (Z.abs k)).
  split; [reflexivity|]. split; [done|].
  split; [destruct (Z.abs k <? 100)%Z; apply digits_fixed_nonempty|].
  split.
  { apply all_chars_cons. split; [apply is_digit_digit_char|apply all_chars_nil]. }
  split; [apply digits_fixed_digits|].
  destruct (Z.abs k <? 100)%Z; apply digits_fixed_digits.
Qed.

Lemma format_e_cases x :
  Num.format_e x = "nan" \/ Num.format_e x = "inf" \/ Num.format_e x = "-inf" \/
  exists neg ip fp eneg ed,
    Num.format_e x = sci_literal neg ip fp eneg ed /\
    ip <> EmptyString /\ ed <> EmptyString /\
    all_chars Py.is_digit ip /\ all_chars Py.is_digit fp /\
    all_chars Py.is_digit ed.
Proof.
  unfold Num.format_e. destruct (Prim2SF x) as [s|s| |s m e].
  - do 3 right. exists s, "0", "000000", false, "00".
    split; [by destruct s|].
    repeat split; try done; intros c Hc; simpl in Hc;
      repeat (destruct Hc as [<-|Hc]; [reflexivity|]); done.
  - destruct s; auto.
  - auto.
  - do 3 right. exists s.
    destruct (0 <=? e)%Z; apply sci7_literal.
Qed.

Lemma format_e_accepted x :
  Num.float_of_str (Num.format_e x) = Some (reread x).
Proof.
  unfold reread.
  destruct (format_e_cases x) as [->|[->|[->|H]]]; [reflexivity..|].
  destruct H as (neg & ip & fp & eneg & ed & -> & ? & ? & ? & ? & ?).
  by rewrite float_of_str_sci.
Qed.

Lemma format_e_chars x :
  Num.format_e x <> EmptyString /\ all_chars number_char (Num.format_e x).
Proof.
  destruct (format_e_cases x) as [->|[->|[->|H]]].
  1-3: split; [done|]; intros c Hc; simpl in Hc;
    repeat (destruct Hc as [<-|Hc]; [reflexivity|]); done.
  destruct H as (neg & ip & fp & eneg & ed & -> & Hip & ? & ? & ? & ?).
  split; [|by apply sci_literal_chars].
  unfold sci_literal. destruct ip; [done|]. by destruct neg.
Qed.

Lemma format_e_token x : token (Num.format_e x).
Proof.
  destruct (format_e_chars x) as [Hne Hch]. split; [done|].
  eapply all_chars_impl; [|exact Hch]. intros c Hc.
  apply number_char_facts in Hc as (-> & _). done.
Qed.

Lemma contains_concat c l :
  Forall (fun s => Py.contains c s = false) l -> Py.contains c (Py.concat l) = false.
Proof.
  induction 1 as [|s l Hs _ IH]; [done|].
  by rewrite concat_cons, contains_app, Hs, IH.
Qed.

Lemma block_body_no_tag values : Py.contains "<" (block_body values) = false.
Proof.
  unfold block_body. rewrite contains_app. apply orb_false_iff. split; [done|].
  apply contains_concat. apply Forall_fmap, Forall_forall. intros v _. simpl.
  unfold value_line. rewrite contains_app. apply orb_false_iff. split; [|done].
  apply all_chars_contains_false.
  eapply all_chars_impl; [|apply format_e_chars]. intros c Hc.
  apply number_char_facts in Hc as (_ & -> & _). done.
Qed.

(** What the decoder reads in the body of a block. *)
Lemma block_values_body values :
  block_values (block_body values) = reread <$> values.
Proof.
  unfold block_values, block_body. rewrite split_strip.
  unfold nl at 1. rewrite app_cons, app_nil_l, split_space by done.
  replace (value_line <$> values)
    with ((fun t => t +:+ nl) <$> (Num.format_e <$> values)).
  2:{ rewrite <- list_fmap_compose. done. }
  rewrite split_lines.
  2:{ apply Forall_fmap, Forall_forall. intros v _. apply format_e_token. }
  induction values as [|v values IH]; [done|].
  rewrite !fmap_cons. simpl. rewrite format_e_accepted. simpl. by f_equal.
Qed.

(** ** The block pattern *)

Lemma prefix_app t r : String.prefix t (t +:+ r) = true.
Proof.
  induction t as [|a t IH]; [by destruct r|].
  rewrite app_cons. simpl. by destruct (ascii_dec a a).
Qed.

Lemma skipn_app t r : Py.skipn (String.length t) (t +:+ r) = r.
Proof. induction t as [|a t IH]; [by destruct r|]. by rewrite app_cons. Qed.

Lemma prefix_skipn t s :
  String.prefix t s = true -> s = t +:+ Py.skipn (String.length t) s.
Proof.
  revert s. induction t as [|a t IH]; intros s; [by destruct s|].
  destruct s as [|b s]; [done|]. simpl.
  destruct (ascii_dec a b) as [->|]; [|done].
  intros H. rewrite app_cons. f_equal. by apply IH.
Qed.

Lemma find_close_cons tag c s :
  Re.find_close tag (String c s)
  = if String.prefix tag (String c s)
    then Some (EmptyString, Py.skipn (String.length tag) (String c s))
    else match Re.find_close tag s with
         | Some (d, r) => Some (String c d, r)
         | None => None
         end.
Proof. done. Qed.

Lemma prefix_cons a t c s :
  String.prefix (String a t) (String c s)
  = if ascii_dec a c then String.prefix t s else false.
Proof. done. Qed.

Lemma find_close_first tg body rest :
  Py.contains "<" body = false ->
  Re.find_close (String "<" tg) (body +:+ String "<" (tg +:+ rest))
  = Some (body, rest).
Proof.
  intros Hb. induction body as [|c body IH].
  - rewrite app_nil_l, find_close_cons, prefix_cons.
    destruct (ascii_dec "<" "<"); [|done].
    rewrite prefix_app. cbn [String.length Py.skipn]. by rewrite skipn_app.
  - rewrite app_cons. simpl in Hb. apply orb_false_iff in Hb as [Hc Hb].
    rewrite find_close_cons, prefix_cons.
    destruct (ascii_dec "<" c) as [<-|Hne]; [done|].
    by rewrite (IH Hb).
Qed.

Lemma find_close_Some tag s d r :
  Re.find_close tag s = Some (d, r) -> s = d +:+ tag +:+ r.
Proof.
  revert d r. induction s as [|c s IH]; intros d r.
  - destruct tag; simpl; [|done]. by intros [= <- <-].
  - rewrite find_close_cons. destruct (String.prefix tag (String c s)) eqn:E.
    + intros [= <- <-]. rewrite app_nil_l. by apply prefix_skipn.
    + destruct (Re.find_close tag s) as [[d' r']|]; [|done].
      intros [= <- <-]. rewrite app_cons. f_equal. by apply IH.
Qed.

Lemma word_facts c :
  Py.is_word c = true ->
  Py.is_space c = false /\ Ascii.eqb c "<" = false /\ Ascii.eqb c ">" = false.
Proof.
  destruct c as [[] [] [] [] [] [] [] []]; vm_compute; intros H;
    try discriminate H; repeat split; reflexivity.
Qed.

Lemma space_not_word c : Py.is_space c = true -> Py.is_word c = false.
Proof.
  destruct c as [[] [] [] [] [] [] [] []]; vm_compute; intros H;
    try discriminate H; reflexivity.
Qed.

Lemma span_none p c s : p c = false -> Py.span p (String c s) = (EmptyString, String c s).
Proof. intros H. simpl. by rewrite H. Qed.

Lemma is_word_string_word s : is_word_string s = true <-> word s.
Proof.
  unfold is_word_string, word. rewrite andb_true_iff, forallb_forall.
  split; intros [H1 H2]; (split; [by destruct s|done]).
Qed.

Lemma block_text_app kind name tag body rest :
  block_text kind name tag body rest
  = block_text kind name tag body EmptyString +:+ rest.
Proof.
  unfold block_text. rewrite app_cons. f_equal.
  rewrite !app_assoc, app_cons. do 2 f_equal.
  rewrite !app_assoc, app_cons. do 2 f_equal.
  rewrite !app_assoc, app_cons. do 2 f_equal.
  rewrite !app_assoc, !app_cons. do 3 f_equal.
  rewrite !app_assoc, app_cons. done.
Qed.

Lemma match_block_good kind name tag body rest :
  kind = "indep" \/ kind = "dep" -> word name -> word tag ->
  Py.contains "<" body = false ->
  Re.match_block (block_text kind name tag body rest)
  = Some ({| Re.kind := kind; Re.name := name; Re.type_name := tag;
             Re.data := body |}, rest).
Proof.
  intros Hk [Hn Wn] [Ht Wt] Hb.
  destruct name as [|n0 name]; [done|]. destruct tag as [|t0 tag]; [done|].
  pose proof Wn as Hn0. apply all_chars_cons in Hn0 as [Hn0 _].
  pose proof Wt as Ht0. apply all_chars_cons in Ht0 as [Ht0 _].
  destruct (word_facts _ Hn0) as (Sn0 & _). destruct (word_facts _ Ht0) as (St0 & _).
  assert (forall X, Py.span Py.is_space (String " " (String n0 X))
                    = (" ", String n0 X)) as Hsp1.
  { intros X. simpl. by rewrite Sn0. }
  assert (forall X, Py.span Py.is_space (String " " (String t0 X))
                    = (" ", String t0 X)) as Hsp2.
  { intros X. simpl. by rewrite St0. }
  unfold block_text, Re.match_block.
  destruct Hk as [-> | ->].
  - change ("indep" +:+ ?x) with (String "i" (String "n" (String "d" (String "e" (String "p" x))))).
    cbn [mbind option_bind]. cbv beta iota zeta.
    change (String.prefix "indep" (String "i" (String "n" (String "d" (String "e" (String "p" ?x)))))) with true.
    cbv beta iota zeta. cbn [Py.skipn mbind option_bind].
    rewrite app_cons, Hsp1, <- app_cons.
    rewrite (span_app Py.is_word (String n0 name) " " _ Wn eq_refl).
    rewrite app_cons, Hsp2, <- app_cons.
    rewrite (span_app Py.is_word (String t0 tag) ">" _ Wt eq_refl).
    cbv beta iota zeta. cbn [Py.is_empty orb].
    change ("</" +:+ "indep" +:+ ">") with (String "<" "/indep>").
    change (String "<" (String "/" ("indep" +:+ String ">" rest)))
      with (String "<" ("/indep>" +:+ rest)).
    rewrite (find_close_first "/indep>" body rest) by done. done.
  - change ("dep" +:+ ?x) with (String "d" (String "e" (String "p" x))).
    cbn [mbind option_bind]. cbv beta iota zeta.
    change (String.prefix "indep" (String "d" ?x)) with false.
    change (String.prefix "dep" (String "d" (String "e" (String "p" ?x)))) with true.
    cbv beta iota zeta. cbn [Py.skipn mbind option_bind].
    rewrite app_cons, Hsp1, <- app_cons.
    rewrite (span_app Py.is_word (String n0 name) " " _ Wn eq_refl).
    rewrite app_cons, Hsp2, <- app_cons.
    rewrite (span_app Py.is_word (String t0 tag) ">" _ Wt eq_refl).
    cbv beta iota zeta. cbn [Py.is_empty orb].
    change ("</" +:+ "dep" +:+ ">") with (String "<" "/dep>").
    change (String "<" (String "/" ("dep" +:+ String ">" rest)))
      with (String "<" ("/dep>" +:+ rest)).
    rewrite (find_close_first "/dep>" body rest) by done. done.
Qed.

Lemma block_text_nonempty kind name tag body :
  block_text kind name tag body EmptyString <> EmptyString.
Proof. done. Qed.

Lemma finditer_block_good kind name tag body rest :
  kind = "indep" \/ kind = "dep" -> word name -> word tag ->
  Py.contains "<" body = false ->
  Re.finditer Re.match_block (block_text kind name tag body rest)
  = {| Re.kind := kind; Re.name := name; Re.type_name := tag; Re.data := body |}
    :: Re.finditer Re.match_block rest.
Proof.
  intros. rewrite block_text_app. apply finditer_match; [done|].
  rewrite <- block_text_app. by apply match_block_good.
Qed.

(** *** What a match of the block pattern looks like *)

Lemma cut_unique p a a' X Y :
  all_chars p a -> all_chars p a' -> stops p X -> stops p Y ->
  a +:+ X = a' +:+ Y -> a = a' /\ X = Y.
Proof.
  intros Ha Ha' (c & r & -> & Hc) (c' & r' & -> & Hc') H.
  apply (first_stop_unique p) in H as (-> & -> & ->); done.
Qed.

Lemma stops_cons p c r : p c = false -> stops p (String c r).
Proof. intros H. by exists c, r. Qed.

Lemma stops_app p q w Z :
  w <> EmptyString -> all_chars q w -> (forall c, q c = true -> p c = false) ->
  stops p (w +:+ Z).
Proof.
  intros Hne Hw Hq. destruct w as [|c w]; [done|].
  apply all_chars_cons in Hw as [Hc _]. rewrite app_cons.
  apply stops_cons. auto.
Qed.

Lemma match_block_open s1 :
  Re.match_block (String "<" s1)
  = (k ← (if String.prefix "indep" s1 then Some ("indep", Py.skipn 5 s1)
          else if String.prefix "dep" s1 then Some ("dep", Py.skipn 3 s1)
          else None);
     let '(kd, s2) := k in
     let '(w1, s3) := Py.span Py.is_space s2 in
     let '(nm, s4) := Py.span Py.is_word s3 in
     let '(w2, s5) := Py.span Py.is_space s4 in
     let '(ty, s6) := Py.span Py.is_word s5 in
     if Py.is_empty w1 || Py.is_empty nm || Py.is_empty w2 || Py.is_empty ty
     then None
     else
       match s6 with
       | String ">" s7 =>
           '(d, rest) ← Re.find_close ("</" +:+ kd +:+ ">") s7;
           Some ({| Re.kind := kd; Re.name := nm; Re.type_name := ty;
                    Re.data := d |}, rest)
       | _ => None
       end).
Proof. reflexivity. Qed.

Lemma match_block_Some s b rest :
  Re.match_block s = Some (b, rest) ->
  exists w1 w2 tail,
    s = String "<" (Re.kind b +:+ w1 +:+ Re.name b +:+ w2 +:+ Re.type_name b
                    +:+ String ">" tail) /\
    (Re.kind b = "indep" \/ Re.kind b = "dep") /\
    w1 <> EmptyString /\ all_chars Py.is_space w1 /\
    w2 <> EmptyString /\ all_chars Py.is_space w2 /\
    word (Re.name b) /\ word (Re.type_name b).
Proof.
  destruct s as [|c s1]; [done|].
  destruct (Ascii.eqb_spec c "<") as [->|Hne].
  2:{ by rewrite match_block_head. }
  rewrite match_block_open.
  assert (exists kd s2,
            (if String.prefix "indep" s1 then Some ("indep", Py.skipn 5 s1)
             else if String.prefix "dep" s1 then Some ("dep", Py.skipn 3 s1)
             else None) = Some (kd, s2) /\
            s1 = kd +:+ s2 /\ (kd = "indep" \/ kd = "dep")
          \/ (if String.prefix "indep" s1 then Some ("indep", Py.skipn 5 s1)
              else if String.prefix "dep" s1 then Some ("dep", Py.skipn 3 s1)
              else None) = None) as Hk.
  { destruct (String.prefix "indep" s1) eqn:E1.
    { exists "indep", (Py.skipn 5 s1). left. split; [done|].
      split; [by apply (prefix_skipn "indep")|by left]. }
    destruct (String.prefix "dep" s1) eqn:E2.
    { exists "dep", (Py.skipn 3 s1). left. split; [done|].
      split; [by apply (prefix_skipn "dep")|by right]. }
    exists "", "". by right. }
  destruct Hk as (kd & s2 & [(-> & -> & Hkd)| ->]); [|done].
  cbn [mbind option_bind]. cbv beta iota zeta.
  destruct (Py.span Py.is_space s2) as [w1 s3] eqn:E1.
  destruct (Py.span Py.is_word s3) as [nm s4] eqn:E2.
  destruct (Py.span Py.is_space s4) as [w2 s5] eqn:E3.
  destruct (Py.span Py.is_word s5) as [ty s6] eqn:E4.
  destruct (span_spec _ _ _ _ E1) as (-> & Hw1 & _).
  destruct (span_spec _ _ _ _ E2) as (-> & Hnm & _).
  destruct (span_spec _ _ _ _ E3) as (-> & Hw2 & _).
  destruct (span_spec _ _ _ _ E4) as (-> & Hty & _).
  destruct w1 as [|x1 w1]; [done|]. destruct nm as [|x2 nm]; [done|].
  destruct w2 as [|x3 w2]; [done|]. destruct ty as [|x4 ty]; [done|].
  cbn [Py.is_empty orb].
  destruct s6 as [|g s7]; [done|].
  destruct (Ascii.eqb_spec g ">") as [->|Hg].
  2:{ destruct g as [[] [] [] [] [] [] [] []]; done. }
  destruct (Re.find_close ("</" +:+ kd +:+ ">") s7) as [[d r]|]; [|done].
  cbn [mbind option_bind]. intros [= <- <-]. simpl.
  exists (String x1 w1), (String x3 w2), s7. done.
Qed.

Lemma word_not_space s : all_chars Py.is_word s -> all_chars not_space s.
Proof.
  apply all_chars_impl. intros c Hc. unfold not_space.
  by destruct (word_facts c Hc) as (-> & _).
Qed.

Lemma kind_not_space kd : kd = "indep" \/ kd = "dep" -> all_chars not_space kd.
Proof.
  intros [-> | ->]; intros c Hc; simpl in Hc;
    repeat (destruct Hc as [<-|Hc]; [reflexivity|]); done.
Qed.

Lemma suffix_token a1 a2 : token (a1 +:+ a2) -> all_chars not_space a2.
Proof. intros [_ H]. by apply all_chars_app in H as [_ ?]. Qed.

(** A block whose name is not a word is matched nowhere. *)
Lemma match_block_bad_name name X :
  token name -> ~ all_chars Py.is_word name ->
  Re.match_block (String "<" ("dep" +:+ String " " (name +:+ String " " X))) = None.
Proof.
  intros [Hne Hn] Hbad.
  destruct (Re.match_block _) as [[b rest]|] eqn:E; [|done]. exfalso.
  apply match_block_Some in E
    as (w1 & w2 & tail & Heq & Hk & Hw1 & Sw1 & Hw2 & Sw2 & [Hnb Wnb] & _).
  injection Heq as Heq.
  destruct Hk as [Hk|Hk]; rewrite Hk in Heq.
  { change ("dep" +:+ ?x) with (String "d" (String "e" (String "p" x))) in Heq.
    change ("indep" +:+ ?x) with (String "i" (String "n" (String "d" (String "e" (String "p" x))))) in Heq.
    discriminate. }
  apply (inj (String.app "dep")) in Heq.
  change (String " " (name +:+ String " " X))
    with (" " +:+ (name +:+ String " " X)) in Heq.
  apply (cut_unique Py.is_space) in Heq as [<- Heq].
  - apply (cut_unique not_space) in Heq as [-> _]; [done|done|..].
    + by apply word_not_space.
    + by apply stops_cons.
    + apply (stops_app _ Py.is_space); [done..|]. intros c Hc.
      unfold not_space. by rewrite Hc.
  - intros c Hc. simpl in Hc. by destruct Hc as [<-|[]].
  - done.
  - apply (stops_app _ not_space); [done..|]. intros c Hc.
    unfold not_space in Hc. by apply negb_true_iff.
  - apply (stops_app _ Py.is_word); [done..|]. intros c Hc.
    by destruct (word_facts c Hc) as (-> & _).
Qed.

Lemma match_block_inside_name a2 tag Y :
  all_chars not_space a2 -> word tag ->
  Re.match_block (String "<" (a2 +:+ String " " (tag +:+ String ">" Y))) = None.
Proof.
  intros Ha [Ht Wt].
  destruct (Re.match_block _) as [[b rest]|] eqn:E; [|done]. exfalso.
  apply match_block_Some in E
    as (w1 & w2 & tail & Heq & Hk & Hw1 & Sw1 & Hw2 & Sw2 & [Hnb Wnb] & _).
  injection Heq as Heq.
  apply (cut_unique not_space) in Heq as [_ Heq].
  2: done. 2: by apply kind_not_space. 2: by apply stops_cons.
  2:{ apply (stops_app _ Py.is_space); [done..|]. intros c Hc.
      unfold not_space. by rewrite Hc. }
  change (String " " (tag +:+ String ">" Y))
    with (" " +:+ (tag +:+ String ">" Y)) in Heq.
  apply (cut_unique Py.is_space) in Heq as [_ Heq].
  2:{ intros c Hc. simpl in Hc. by destruct Hc as [<-|[]]. }
  2: done.
  2:{ apply (stops_app _ Py.is_word); [done..|]. intros c Hc.
      by destruct (word_facts c Hc) as (-> & _). }
  2:{ apply (stops_app _ Py.is_word); [done..|]. intros c Hc.
      by destruct (word_facts c Hc) as (-> & _). }
  apply (cut_unique Py.is_word) in Heq as [_ Heq]; [|done|done|..].
  - destruct w2 as [|y w2]; [done|]. rewrite app_cons in Heq.
    injection Heq as <- _. apply all_chars_cons in Sw2 as [Hy _]. done.
  - by apply stops_cons.
  - apply (stops_app _ Py.is_space); [done..|]. apply space_not_word.
Qed.

Lemma bad_block_skipped name tag body rest :
  token name -> ~ all_chars Py.is_word name -> word tag ->
  Py.contains "<" body = false ->
  Re.finditer Re.match_block (block_text "dep" name tag body rest)
  = Re.finditer Re.match_block rest.
Proof.
  intros Hn Hbad Ht Hb. unfold block_text.
  rewrite finditer_step by by apply match_block_bad_name.
  change ("dep" +:+ String ">" rest)
    with (String "d" (String "e" (String "p" (String ">" rest)))).
  change ("dep" +:+ ?x) with (String "d" (String "e" (String "p" x))).
  rewrite !finditer_step by by apply match_block_head.
  rewrite finditer_no_match.
  2:{ intros a1 a2 -> Hne. destruct a2 as [|c a2]; [done|]. rewrite app_cons.
      destruct (Ascii.eqb_spec c "<") as [->|Hc]; [|by apply match_block_head].
      apply match_block_inside_name; [|done].
      apply suffix_token in Hn. by apply all_chars_cons in Hn as [_ ?]. }
  assert (String " " (tag +:+ String ">" (body +:+
            String "<" (String "/" (String "d" (String "e" (String "p" (String ">" rest)))))))
          = String " " (tag +:+ String ">" body)
            +:+ String "<" (String "/" (String "d" (String "e" (String "p" (String ">" rest))))))
    as ->.
  { rewrite app_cons. f_equal. rewrite app_assoc. f_equal. }
  rewrite finditer_block_skip.
  2:{ simpl. rewrite contains_app. apply orb_false_iff. split; [|by simpl].
      apply all_chars_contains_false. destruct Ht as [_ Wt].
      eapply all_chars_impl; [|exact Wt]. intros c Hc.
      by destruct (word_facts c Hc) as (_ & -> & _). }
  rewrite finditer_step by reflexivity.
  by rewrite !finditer_step by by apply match_block_head.
Qed.

(** ** The text of an integer *)

Lemma string_of_uint_digits d :
  all_chars Py.is_digit (NilEmpty.string_of_uint d).
Proof.
  induction d; simpl; try apply all_chars_nil;
    (apply all_chars_cons; split; [reflexivity|done]).
Qed.

Lemma str_of_int_word z : (0 <= z)%Z -> word (Num.str_of_int z).
Proof.
  intros Hz. unfold Num.str_of_int.
  assert (exists d, Z.to_int z = Decimal.Pos d) as [d ->].
  { destruct z; [by eexists|by eexists|lia]. }
  simpl. unfold NilZero.string_of_uint.
  assert (forall u, all_chars Py.is_word (NilEmpty.string_of_uint u)) as Hu.
  { intros u. eapply all_chars_impl; [|apply string_of_uint_digits].
    intros c Hc. by apply digit_facts. }
  destruct d; simpl; (split; [done|]);
    (apply all_chars_cons; split; [reflexivity|]);
    first [apply all_chars_nil | apply Hu].
Qed.

(** ** The encoder's text, block by block *)

Lemma block_as_text kind name tag values rest :
  block kind name tag values +:+ rest
  = block_text kind name tag (block_body values) (nl +:+ rest).
Proof.
  unfold block, block_text, block_body. rewrite !app_assoc. reflexivity.
Qed.

Lemma finditer_newline rest :
  Re.finditer Re.match_block (nl +:+ rest) = Re.finditer Re.match_block rest.
Proof. unfold nl. rewrite app_cons, app_nil_l. by apply finditer_step. Qed.

Lemma finditer_block kind name tag values rest :
  kind = "indep" \/ kind = "dep" -> word name -> word tag ->
  Re.finditer Re.match_block (block kind name tag values +:+ rest)
  = block_record kind name tag values :: Re.finditer Re.match_block rest.
Proof.
  intros. rewrite block_as_text, finditer_block_good, finditer_newline;
    auto using block_body_no_tag.
Qed.

Lemma finditer_deps param (f : string * nat -> list float) nm :
  word param -> Forall (fun e : string * nat => token e.1) nm ->
  Re.finditer Re.match_block
    (Py.concat ((fun e : string * nat => block "dep" e.1 param (f e)) <$> nm))
  = (fun e : string * nat => block_record "dep" e.1 param (f e))
      <$> filter (fun e : string * nat => is_word_string e.1 = true) nm.
Proof.
  intros Hp. induction 1 as [|e nm He _ IH]; [done|].
  rewrite fmap_cons, concat_cons.
  destruct (is_word_string e.1) eqn:E.
  - rewrite filter_cons_True by done. rewrite fmap_cons, <- IH.
    apply finditer_block; [by right| |done]. by apply is_word_string_word.
  - rewrite filter_cons_False by congruence. rewrite <- IH.
    rewrite block_as_text, bad_block_skipped, finditer_newline;
      auto using block_body_no_tag.
    intros Hw. assert (word e.1) as Hw' by (split; [apply He|done]).
    apply is_word_string_word in Hw'. congruence.
Qed.

Lemma no_record_without_node param (f : string * nat -> list float) nm n :
  n ∉ nm.*1 ->
  filter (fun b => Re.name b = n)
    ((fun e : string * nat => block_record "dep" e.1 param (f e))
       <$> filter (fun e : string * nat => is_word_string e.1 = true) nm) = [].
Proof.
  induction nm as [|e nm IH]; [done|]. rewrite fmap_cons, not_elem_of_cons.
  intros [Hne Hn].
  destruct (is_word_string e.1) eqn:E.
  - rewrite filter_cons_True by done. rewrite fmap_cons.
    rewrite filter_cons_False by (simpl; congruence). auto.
  - rewrite filter_cons_False by congruence. auto.
Qed.

Lemma one_record_per_node param (f : string * nat -> list float) nm node idx :
  NoDup nm.*1 -> (node, idx) ∈ nm -> is_word_string node = true ->
  filter (fun b => Re.name b = node)
    ((fun e : string * nat => block_record "dep" e.1 param (f e))
       <$> filter (fun e : string * nat => is_word_string e.1 = true) nm)
  = [block_record "dep" node param (f (node, idx))].
Proof.
  intros Hnd Hin Hw. induction nm as [|e nm IH]; [by apply elem_of_nil in Hin|].
  rewrite fmap_cons in Hnd. apply NoDup_cons in Hnd as [He Hnd].
  apply elem_of_cons in Hin as [<-|Hin].
  - simpl in *. rewrite filter_cons_True by done. rewrite fmap_cons.
    rewrite filter_cons_True by done. by rewrite no_record_without_node.
  - assert (e.1 <> node) as Hne.
    { intros <-. apply He. apply list_elem_of_fmap. by exists (e.1, idx). }
    destruct (is_word_string e.1) eqn:E.
    + rewrite filter_cons_True by done. rewrite fmap_cons.
      rewrite filter_cons_False by done. auto.
    + rewrite filter_cons_False by congruence. auto.
Qed.

(** The text written for sweep parameters that can be read. *)
Lemma encode_text node_map soln sp start stop points :
  read_sweep sp = Some (start, stop, points) ->
  (points <= Num.float_limit)%Z ->
  Forall (fun e : string * nat => (e.2 < length soln)%nat) node_map ->
  encode node_map soln sp =
    Ok (block "indep" (get sp "Param" "sweep") (Num.str_of_int points)
          (linspace start stop points)
        +:+ Py.concat ((fun e : string * nat =>
              block "dep" e.1 (get sp "Param" "sweep")
                (replicate (Z.to_nat points) (vget soln e.2))) <$> node_map)).
Proof.
  intros Hsp Hp Hidx. unfold read_sweep in Hsp. unfold encode.
  destruct (Num.float_of_str (get sp "Start" "0")) as [start'|]; [|done].
  destruct (Num.float_of_str (get sp "Stop" "10")) as [stop'|]; [|done].
  destruct (Num.int_of_str (get sp "Points" "2")) as [points'|]; [|done].
  simpl in Hsp. injection Hsp as -> -> ->. simpl.
  pose proof float_limit_pos as Hlim.
  assert ((if (1 <? points)%Z
           then q ← Num.div_int (stop - start) (points - 1); Ok (Float q)
           else Ok (Int 0))
          = Ok (if (1 <? points)%Z then Float (step_of start stop points)
                else Int 0)) as ->.
  { unfold step_of. destruct (1 <? points)%Z eqn:E; [|done].
    apply Z.ltb_lt in E. unfold Num.div_int.
    rewrite (proj2 (Z.eqb_neq _ _)) by lia.
    by rewrite of_int_to_float by lia. }
  simpl.
  rewrite (mapM_fmap _ (fun i => start + Num.to_float i * step_of start stop points)).
  2:{ apply Forall_forall. intros i Hi%elem_of_range.
      unfold sweep_value, step_of. destruct (1 <? points)%Z eqn:E.
      - by rewrite of_int_to_float by lia.
      - apply Z.ltb_ge in E. assert (i = 0%Z) as -> by lia. done. }
  simpl.
  rewrite (mapM_fmap _ (fun e : string * nat =>
              block "dep" e.1 (get sp "Param" "sweep")
                (replicate (Z.to_nat points) (vget soln e.2)))).
  2:{ eapply Forall_impl; [exact Hidx|]. intros [node idx] Hlt.
      by apply dep_block_ok. }
  simpl. unfold block, linspace. by rewrite !app_assoc.
Qed.

(** What the decoder finds in the encoder's text. *)
Lemma decode_encoded param tag values (f : string * nat -> list float) nm n :
  word param -> word tag ->
  Forall (fun e : string * nat => token e.1) nm ->
  decode (block "indep" param tag values
          +:+ Py.concat ((fun e : string * nat => block "dep" e.1 param (f e))
                           <$> nm)) !! n
  = (fun b => Values (block_values (Re.data b)))
      <$> last (filter (fun b => Re.name b = n)
                  (block_record "indep" param tag values
                   :: ((fun e : string * nat => block_record "dep" e.1 param (f e))
                         <$> filter (fun e : string * nat =>
                                       is_word_string e.1 = true) nm))).
Proof.
  intros Hp Ht Hnm. unfold decode.
  rewrite (foldl_insert_lookup Re.name (fun b => Values (block_values (Re.data b)))).
  rewrite lookup_empty, finditer_block, finditer_deps by auto.
  by destruct (last _).
Qed.

Lemma decode_encoded_node param tag values (f : string * nat -> list float)
    nm node idx :
  word param -> word tag ->
  Forall (fun e : string * nat => token e.1) nm -> NoDup nm.*1 ->
  (node, idx) ∈ nm -> word node ->
  decode (block "indep" param tag values
          +:+ Py.concat ((fun e : string * nat => block "dep" e.1 param (f e))
                           <$> nm)) !! node
  = Some (Values (reread <$> f (node, idx))).
Proof.
  intros Hp Ht Hnm Hnd Hin Hw. rewrite decode_encoded by done.
  apply is_word_string_word in Hw.
  destruct (decide (param = node)) as [->|Hne].
  - rewrite filter_cons_True by done.
    rewrite (one_record_per_node _ _ _ node idx) by done. simpl.
    by rewrite block_values_body.
  - rewrite filter_cons_False by done.
    rewrite (one_record_per_node _ _ _ node idx) by done. simpl.
    by rewrite block_values_body.
Qed.

Lemma decode_encoded_sweep param tag values (f : string * nat -> list float) nm :
  word param -> word tag ->
  Forall (fun e : string * nat => token e.1) nm -> param ∉ nm.*1 ->
  decode (block "indep" param tag values
          +:+ Py.concat ((fun e : string * nat => block "dep" e.1 param (f e))
                           <$> nm)) !! param
  = Some (Values (reread <$> values)).
Proof.
  intros Hp Ht Hnm Hnot. rewrite decode_encoded by done.
  rewrite filter_cons_True by done.
  rewrite no_record_without_node by done. simpl.
  by rewrite block_values_body.
Qed.

(** ** The node tokens of a parsed netlist *)

Lemma node_tokens_Forall (P : string -> Prop) ps :
  Forall P ps -> Forall P (node_tokens ps).
Proof.
  induction 1 as [|p ps Hp _ IH]; simpl; [constructor|].
  destruct (Py.contains "=" p); [constructor|by constructor].
Qed.

Lemma parse_line_tokens st line st' :
  (forall n, n ∈ nodes st -> token n) -> parse_line st line = Ok st' ->
  forall n, n ∈ nodes st' -> token n.
Proof.
  intros Hst. unfold parse_line.
  destruct (Py.is_empty (Py.strip line) || Py.startswith "#" (Py.strip line));
    [by intros [= <-]|].
  pose proof (split_tokens (Py.strip line)) as Hsplit.
  destruct (Py.split (Py.strip line)) as [|type_id rest]; [done|].
  destruct (Py.startswith ".DC" type_id); [by intros [= <-]|].
  destruct (negb (Py.contains ":" type_id)); [by intros [= <-]|].
  destruct (Py.split_on ":" type_id) as [|ty [|nm r]]; [done..|].
  intros [= <-] n. simpl. rewrite elem_of_union, elem_of_list_to_set.
  intros [Hn|Hn]; [by apply Hst|].
  apply Forall_cons in Hsplit as [_ Hrest].
  apply (node_tokens_Forall token) in Hrest.
  rewrite Forall_forall in Hrest. by apply Hrest.
Qed.

Lemma parse_tokens text p :
  parse text = Ok p -> forall n, n ∈ nodes p -> token n.
Proof.
  intros H.
  apply (foldM_invariant (fun st => forall n, n ∈ nodes st -> token n)
           parse_line (Py.splitlines text)
           (fun st line st' Hst => parse_line_tokens st line st' Hst) _ _
           (fun n Hn => False_ind _ (proj1 (elem_of_empty n) Hn)) H).
Qed.

Lemma sorted_nodes_spec (ns : gset string) :
  (forall n, n ∈ sorted_nodes ns <-> n ∈ ns /\ n <> "0" /\ n <> "gnd") /\
  StronglySorted String.le (sorted_nodes ns) /\ NoDup (sorted_nodes ns).
Proof.
  destruct (node_index_map_aux ns) as (H1 & H2 & H3 & _). auto.
Qed.

Lemma solve_node_map alg text node_map x :
  solve alg text = Ok (node_map, x) ->
  NoDup node_map.*1 /\
  Forall (fun e : string * nat => token e.1) node_map /\
  Forall (fun e : string * nat => (e.2 < length x)%nat) node_map.
Proof.
  intros H. pose proof (solve_lengths _ _ _ _ H) as [Hlen Hidx].
  unfold solve in H.
  apply bind_Ok in H as (p & Hp & H).
  apply bind_Ok in H as ([[nm N] [G Iv]] & Ha & H).
  apply bind_Ok in H as ([G' Iv'] & Hf & H).
  apply bind_Ok in H as (x' & Hb & [= <- <-]).
  pose proof (assemble_shape _ _ _ _ _ Ha) as (-> & _ & _).
  destruct (sorted_nodes_spec (nodes p)) as (Hin & _ & Hnd).
  assert ((index_nodes (sorted_nodes (nodes p))).*1 = sorted_nodes (nodes p))
    as Hfst.
  { unfold index_nodes. apply fst_zip. rewrite length_seq. lia. }
  split; [by rewrite Hfst|]. split.
  - apply Forall_forall. intros [n i] Hni.
    assert (n ∈ sorted_nodes (nodes p)) as Hn.
    { rewrite <- Hfst. apply list_elem_of_fmap. by exists (n, i). }
    simpl. apply Hin in Hn as (Hn & _). by eapply parse_tokens.
  - eapply Forall_impl; [exact Hidx|]. simpl. intros. lia.
Qed.

(** ** Forward elimination works below the pivot row only *)

Lemma foldM_invariant_on {A S} (P : S -> Prop) (f : S -> A -> result S) l :
  (forall s a s', a ∈ l -> P s -> f s a = Ok s' -> P s') ->
  forall s s', P s -> foldM f l s = Ok s' -> P s'.
Proof.
  induction l as [|a l IH]; intros Hf s s' Hs; simpl.
  - by intros [= <-].
  - destruct (f s a) as [s1|] eqn:E; simpl; [|done].
    apply IH.
    + intros ??? Hin. apply Hf. by right.
    + eapply Hf; [by left|done..].
Qed.

Lemma mset_other_row (G : matrix) j k v r :
  r <> j -> mset G j k v !! r = G !! r.
Proof. intros H. unfold mset. by apply list_lookup_alter_ne. Qed.

Lemma eliminate_rows size i pivot G Iv j G' Iv' r :
  eliminate size i pivot (G, Iv) j = Ok (G', Iv') -> r <> j ->
  G' !! r = G !! r /\ Iv' !! r = Iv !! r.
Proof.
  unfold eliminate. intros H Hr.
  apply bind_Ok in H as (factor & _ & [= <- <-]). split.
  - generalize (seq i (size - i)). intros l. revert G.
    induction l as [|k l IH]; intros G; simpl; [done|].
    rewrite IH. by apply mset_other_row.
  - by apply list_lookup_insert_ne.
Qed.

(** X2: on a square matrix and a right-hand side of its size, a step [i]
    of the forward elimination changes neither the pivot row
    nor a row above it, in the matrix and in the right-hand side: rows are
    never exchanged. *)
Theorem elimination_keeps_pivot_rows size G Iv i G' Iv' r :
  square size G -> length Iv = size ->
  forward_step size (G, Iv) i = Ok (G', Iv') -> (r <= i)%nat ->
  G' !! r = G !! r /\ Iv' !! r = Iv !! r.
Proof.
  unfold forward_step. intros _ _ H Hr. simpl in H.
  destruct (abs (mget G i i) <? tol); [by injection H as <- <-|].
  apply (foldM_invariant_on
           (fun st : matrix * vector => st.1 !! r = G !! r /\ st.2 !! r = Iv !! r)
           _ _) in H; [done| |done].
  intros [G1 I1] j [G2 I2] Hj [HG HI] Hstep. simpl in *.
  apply elem_of_seq in Hj.
  eapply (eliminate_rows _ _ _ _ _ _ _ _ r) in Hstep as [-> ->]; [done|lia].
Qed.

Lemma elimination_keeps_pivot_rows_witness :
  exists G' Iv',
    forward_step 2 ([[2; 1]; [4; 5]], [6; 7]) 0 = Ok (G', Iv') /\
    G' !! 0%nat = Some [2; 1] /\ Iv' !! 0%nat = Some 6.
Proof.
  do 2 eexists. split; [vm_compute; reflexivity|].
  apply (elimination_keeps_pivot_rows 2 [[2; 1]; [4; 5]] [6; 7] 0 _ _ 0).
  - split; [reflexivity|]. repeat constructor.
  - reflexivity.
  - vm_compute. reflexivity.
  - lia.
Defined.

(** ** The result text and what the decoder reads from it *)

Lemma result_text_layout_aux alg text node_map soln start stop points :
  solve alg text = Ok (node_map, soln) ->
  read_sweep (sweep_params text) = Some (start, stop, points) ->
  (points <= Num.float_limit)%Z ->
  run alg text
  = Ok (block "indep" (get (sweep_params text) "Param" "sweep")
          (Num.str_of_int points) (linspace start stop points)
        +:+ Py.concat ((fun e : string * nat =>
              block "dep" e.1 (get (sweep_params text) "Param" "sweep")
                (replicate (Z.to_nat points) (vget soln e.2))) <$> node_map)).
Proof.
  intros Hs Hsp Hp. unfold run. rewrite Hs. simpl.
  apply encode_text; [done..|].
  by apply solve_node_map in Hs as (_ & _ & H).
Qed.

(** X12: when the sweep parameters can be read and [Points] is within the
    range of a float, [main] writes one [indep] block with the points of
    the sweep and then one [dep] block per entry of the node map, in the
    order of the map, each repeating the node's value [Points] times (no
    value at all for [Points <= 0]). *)
Theorem result_text_layout alg text node_map soln start stop points :
  solve alg text = Ok (node_map, soln) ->
  read_sweep (sweep_params text) = Some (start, stop, points) ->
  (points <= Num.float_limit)%Z ->
  run alg text
  = Ok (block "indep" (get (sweep_params text) "Param" "sweep")
          (Num.str_of_int points) (linspace start stop points)
        +:+ Py.concat ((fun e : string * nat =>
              block "dep" e.1 (get (sweep_params text) "Param" "sweep")
                (replicate (Z.to_nat points) (vget soln e.2))) <$> node_map)).
Proof. apply result_text_layout_aux. Qed.

Lemma result_text_layout_witness :
  exists node_map soln,
    solve Sequential source_and_resistor = Ok (node_map, soln) /\
    run Sequential source_and_resistor
    = Ok (block "indep" "sweep" "2" (linspace 0 10 2)
          +:+ Py.concat ((fun e : string * nat =>
                block "dep" e.1 "sweep" (replicate 2 (vget soln e.2)))
                  <$> node_map)).
Proof.
  do 2 eexists. split; [vm_compute; reflexivity|].
  apply (result_text_layout Sequential source_and_resistor _ _ 0 10 2).
  - vm_compute. reflexivity.
  - vm_compute. reflexivity.
  - apply Z.leb_le. vm_compute. reflexivity.
Defined.

(** X13: every value line the encoder writes is read by the decoder: the
    body of a block yields one number per written value, in order, each the
    [float()] of the written text. *)
Theorem written_values_are_all_read values :
  Forall2 (fun v y => Num.float_of_str (Num.format_e v) = Some y)
    values (block_values (block_body values)).
Proof.
  rewrite block_values_body. apply Forall2_fmap_r, Forall_Forall2_diag.
  apply Forall_forall. intros v _. apply format_e_accepted.
Qed.

Lemma no_record_for_other_name param (f : string * nat -> list float) nm n :
  is_word_string n = false ->
  filter (fun b => Re.name b = n)
    ((fun e : string * nat => block_record "dep" e.1 param (f e))
       <$> filter (fun e : string * nat => is_word_string e.1 = true) nm) = [].
Proof.
  intros Hn. induction nm as [|e nm IH]; [done|].
  destruct (is_word_string e.1) eqn:E.
  - rewrite filter_cons_True by done. rewrite fmap_cons.
    rewrite filter_cons_False by (simpl; congruence). auto.
  - rewrite filter_cons_False by congruence. auto.
Qed.

Lemma run_decoded alg text node_map soln start stop points :
  solve alg text = Ok (node_map, soln) ->
  read_sweep (sweep_params text) = Some (start, stop, points) ->
  (0 <= points <= Num.float_limit)%Z ->
  word (get (sweep_params text) "Param" "sweep") ->
  exists out, run alg text = Ok out /\
    (forall node idx, (node, idx) ∈ node_map -> word node ->
       parse_qucs_dat (Some out) !! node = Some (decoded_node soln points idx)) /\
    (forall node, node ∈ node_map.*1 -> ~ word node ->
       parse_qucs_dat (Some out) !! node = None) /\
    (get (sweep_params text) "Param" "sweep" ∉ node_map.*1 ->
       parse_qucs_dat (Some out) !! get (sweep_params text) "Param" "sweep"
       = Some (Values (reread <$> linspace start stop points))).
Proof.
  intros Hs Hsp Hp Hw. eexists. split.
  { apply result_text_layout_aux; [done..|lia]. }
  pose proof (solve_node_map _ _ _ _ Hs) as (Hnd & Htok & _).
  assert (word (Num.str_of_int points)) as Hpts by (apply str_of_int_word; lia).
  simpl. split; [|split].
  - intros node idx Hin Hnode.
    rewrite (decode_encoded_node _ _ _ _ _ node idx) by done.
    unfold decoded_node. by rewrite fmap_replicate.
  - intros node _ Hnode. rewrite decode_encoded by done.
    assert (is_word_string node = false) as Hn.
    { destruct (is_word_string node) eqn:E; [|done].
      by apply is_word_string_word in E. }
    rewrite filter_cons_False by (simpl; by intros <-).
    by rewrite no_record_for_other_name.
  - intros Hnot. by apply decode_encoded_sweep.
Qed.

(** X16: decoding what [main] wrote gives, under every node whose name is
    a word, the node's solved value as read back from its text, [Points]
    times. *)
Theorem decoder_returns_node_values alg text node_map soln start stop points
    node idx :
  solve alg text = Ok (node_map, soln) ->
  read_sweep (sweep_params text) = Some (start, stop, points) ->
  (0 <= points <= Num.float_limit)%Z ->
  word (get (sweep_params text) "Param" "sweep") ->
  (node, idx) ∈ node_map -> word node ->
  exists out, run alg text = Ok out /\
    parse_qucs_dat (Some out) !! node = Some (decoded_node soln points idx).
Proof.
  intros Hs Hsp Hp Hw Hin Hnode.
  destruct (run_decoded _ _ _ _ _ _ _ Hs Hsp Hp Hw) as (out & Hrun & H & _).
  exists out. auto.
Qed.

Lemma decoder_returns_node_values_witness :
  exists node_map soln,
    solve Sequential source_and_resistor = Ok (node_map, soln) /\
    exists out, run Sequential source_and_resistor = Ok out /\
      parse_qucs_dat (Some out) !! "n1" = Some (decoded_node soln 2 0).
Proof.
  do 2 eexists. split; [vm_compute; reflexivity|].
  eapply (decoder_returns_node_values Sequential source_and_resistor _ _ 0 10 2).
  - vm_compute. reflexivity.
  - vm_compute. reflexivity.
  - split; [lia|]. apply Z.leb_le. vm_compute. reflexivity.
  - apply is_word_string_word. vm_compute. reflexivity.
  - constructor.
  - apply is_word_string_word. vm_compute. reflexivity.
Defined.

(** X17: a node whose name has an ASCII character outside [\w] is written
    by [main] but has no entry in the decoded dictionary. *)
Theorem decoder_loses_other_names alg text node_map soln start stop points node :
  solve alg text = Ok (node_map, soln) ->
  read_sweep (sweep_params text) = Some (start, stop, points) ->
  (0 <= points <= Num.float_limit)%Z ->
  word (get (sweep_params text) "Param" "sweep") ->
  node ∈ node_map.*1 -> has_other_char node ->
  exists out, run alg text = Ok out /\
    parse_qucs_dat (Some out) !! node = None.
Proof.
  intros Hs Hsp Hp Hw Hin (c & Hc & _ & Hf).
  assert (~ word node) as Hnode.
  { intros [_ Hall]. apply Hall in Hc. congruence. }
  destruct (run_decoded _ _ _ _ _ _ _ Hs Hsp Hp Hw) as (out & Hrun & _ & H & _).
  exists out. auto.
Qed.

Lemma decoder_loses_other_names_witness :
  exists node_map soln,
    solve Sequential dashed_node = Ok (node_map, soln) /\
    exists out, run Sequential dashed_node = Ok out /\
      parse_qucs_dat (Some out) !! "a-b" = None.
Proof.
  do 2 eexists. split; [vm_compute; reflexivity|].
  eapply (decoder_loses_other_names Sequential dashed_node _ _ 0 10 2).
  - vm_compute. reflexivity.
  - vm_compute. reflexivity.
  - split; [lia|]. apply Z.leb_le. vm_compute. reflexivity.
  - apply is_word_string_word. vm_compute. reflexivity.
  - constructor.
  - exists "-"%char. split; [right; left; reflexivity|].
    split; [apply Nat.ltb_lt; reflexivity|reflexivity].
Defined.

(** X18: decoding what [main] wrote gives the points of the sweep under
    the sweep parameter's name, unless a node has that name. *)
Theorem decoder_returns_sweep_values alg text node_map soln start stop points :
  solve alg text = Ok (node_map, soln) ->
  read_sweep (sweep_params text) = Some (start, stop, points) ->
  (0 <= points <= Num.float_limit)%Z ->
  word (get (sweep_params text) "Param" "sweep") ->
  get (sweep_params text) "Param" "sweep" ∉ node_map.*1 ->
  exists out, run alg text = Ok out /\
    parse_qucs_dat (Some out) !! get (sweep_params text) "Param" "sweep"
    = Some (Values (reread <$> linspace start stop points)).
Proof.
  intros Hs Hsp Hp Hw Hnot.
  destruct (run_decoded _ _ _ _ _ _ _ Hs Hsp Hp Hw) as (out & Hrun & _ & _ & H).
  exists out. auto.
Qed.

Lemma decoder_returns_sweep_values_witness :
  exists node_map soln,
    solve Sequential source_and_resistor = Ok (node_map, soln) /\
    exists out, run Sequential source_and_resistor = Ok out /\
      parse_qucs_dat (Some out) !! "sweep"
      = Some (Values (reread <$> linspace 0 10 2)).
Proof.
  do 2 eexists. split; [vm_compute; reflexivity|].
  eapply (decoder_returns_sweep_values Sequential source_and_resistor _ _ 0 10 2).
  - vm_compute. reflexivity.
  - vm_compute. reflexivity.
  - split; [lia|]. apply Z.leb_le. vm_compute. reflexivity.
  - apply is_word_string_word. vm_compute. reflexivity.
  - apply not_elem_of_cons. split; [done|].
    apply not_elem_of_cons. split; [done|]. apply not_elem_of_nil.
Defined.

(** * The claims on the result text *)

Lemma length_linspace start stop points :
  length (linspace start stop points) = Z.to_nat points.
Proof. unfold linspace, range. by rewrite !length_fmap, length_seq. Qed.

Lemma lookup_linspace start stop points i :
  (i < Z.to_nat points)%nat ->
  linspace start stop points !! i
  = Some (start + Num.to_float (Z.of_nat i) * step_of start stop points).
Proof.
  intros Hi. unfold linspace, range.
  rewrite !list_lookup_fmap, lookup_seq_lt by done. done.
Qed.

(** C8, as amended: when [solve] returns and the sweep parameters can be
    read with [1 <= Points] in the range of binary64, [main] writes one
    [indep] block, named by the sweep parameter and tagged with [Points],
    that holds the [Points] values [Start + i*step], with
    [step = (Stop - Start) / (Points - 1)] in binary64 arithmetic ([0] for a
    single point, whose value is [Start + 0]), and then one [dep] block per
    entry of the node map, in its order, with the solved value of the node
    [Points] times. *)
Theorem sweep_blocks alg text node_map soln start stop points :
  solve alg text = Ok (node_map, soln) ->
  read_sweep (sweep_params text) = Some (start, stop, points) ->
  (1 <= points <= Num.float_limit)%Z ->
  exists values,
    run alg text
    = Ok (block "indep" (get (sweep_params text) "Param" "sweep")
            (Num.str_of_int points) values
          +:+ Py.concat ((fun e : string * nat =>
                block "dep" e.1 (get (sweep_params text) "Param" "sweep")
                  (replicate (Z.to_nat points) (vget soln e.2))) <$> node_map)) /\
    length values = Z.to_nat points /\
    (forall i, (i < Z.to_nat points)%nat ->
       values !! i
       = Some (start + Num.to_float (Z.of_nat i) * step_of start stop points)) /\
    (points = 1%Z -> values = [start + 0] /\ same_number (start + 0) start).
Proof.
  intros Hs Hsp Hp. exists (linspace start stop points).
  split; [apply result_text_layout_aux; [done..|lia]|].
  split; [apply length_linspace|].
  split; [intros i; apply lookup_linspace|].
  intros ->. split; [reflexivity|apply add_zero_same].
Qed.

Lemma sweep_blocks_witness :
  exists node_map soln,
    solve Sequential source_and_resistor = Ok (node_map, soln) /\
    exists values,
      run Sequential source_and_resistor
      = Ok (block "indep" "sweep" "2" values
            +:+ Py.concat ((fun e : string * nat =>
                  block "dep" e.1 "sweep" (replicate 2 (vget soln e.2)))
                    <$> node_map)) /\
      length values = 2%nat /\
      (forall i, (i < 2)%nat ->
         values !! i = Some (0 + Num.to_float (Z.of_nat i) * step_of 0 10 2)) /\
      (2%Z = 1%Z -> values = [0 + 0] /\ same_number (0 + 0) 0).
Proof.
  do 2 eexists. split; [vm_compute; reflexivity|].
  apply (sweep_blocks Sequential source_and_resistor _ _ 0 10 2).
  - vm_compute. reflexivity.
  - vm_compute. reflexivity.
  - split; [lia|]. apply Z.leb_le. vm_compute. reflexivity.
Defined.

(** C8, the claim as given fails: a sweep from -1e308 to 1e308 in two points
    has an infinite step, and its values are not a number and infinity
    instead of [Start] and [Stop]; a [Points] beyond the range of binary64
    raises. *)
Lemma sweep_without_start_and_stop :
  run Sequential wide_sweep
    = Ok (block "indep" "sweep" "2" [PrimFloat.nan; PrimFloat.infinity]) /\
  run Sequential huge_sweep = Raise OverflowError.
Proof. vm_compute. split; reflexivity. Qed.






(** * The claim on parameters without a value *)


















(** A resistor written with [R=""] beside a 5 V source: the solution is that
    of a resistance of 1000. *)
Lemma default_resistance_solution alg :
  solve alg (netlist ["Vdc:V1 n1 0 " +:+ kv "U" "5";
                      component_line "R" "R1" ["n1"; "0"] "R"])
  = Ok ([("n1", 0%nat)], [5; 5 / -1000]).
Proof. destruct alg; vm_compute; reflexivity. Qed.

